(** * django-send-email: the [send_email_message] management command

    A shallow embedding of
    [django_send_email/management/commands/send_email_message.py]
    and the properties of its recipient resolution, validation,
    confirmation and dispatch.

    Conventions of the embedding.
    - A Python [str] is a Rocq [string]; a character is a code point
      below 256.
    - The [options] dict has a fixed set of keys, so it is a record; the
      keys the command adds while it runs ([recipient_list] and the two
      [*_formatted] entries) are the local values they alias.
    - Everything the command does to the outside world is an [Event] of
      a trace; everything the outside world answers is a field of
      [Env].  An exception is an [Exc]; [sys.exit] is [SystemExit].
    - The [for] loop that resolves group names mutates the list it
      iterates, so it is modelled on Python's list-iterator protocol
      (an index into the live list) and takes fuel. *)

From Stdlib Require Import List String Ascii ZArith Bool Lia Arith.
Import ListNotations.

Open Scope string_scope.
Open Scope list_scope.

(* ================================================================== *)
(** ** Python strings *)

Module Py.

Definition nl : string := String "010"%char EmptyString.
Definition dquote : string := String "034"%char EmptyString.

(** [str.isspace] on one code point below 256. *)
Definition isspace (c : ascii) : bool :=
  let n := nat_of_ascii c in
  (((9 <=? n) && (n <=? 13)) || ((28 <=? n) && (n <=? 32))
   || (n =? 133) || (n =? 160))%nat.

(** [str.lower] on one code point below 256: A-Z, and the Latin-1
    capitals U+00C0..U+00DE except the multiplication sign. *)
Definition lower_char (c : ascii) : ascii :=
  let n := nat_of_ascii c in
  if (((65 <=? n) && (n <=? 90))
      || ((192 <=? n) && (n <=? 222) && negb (n =? 215)))%nat
  then ascii_of_nat (n + 32) else c.

Fixpoint lower (s : string) : string :=
  match s with
  | EmptyString => EmptyString
  | String c r => String (lower_char c) (lower r)
  end.

(** [s.startswith(p)] *)
Definition startswith (s p : string) : bool := String.prefix p s.

Fixpoint lstrip (s : string) : string :=
  match s with
  | EmptyString => EmptyString
  | String c r => if isspace c then lstrip r else s
  end.

Fixpoint rstrip (s : string) : string :=
  match s with
  | EmptyString => EmptyString
  | String c r =>
      match rstrip r with
      | EmptyString => if isspace c then EmptyString else String c EmptyString
      | r' => String c r'
      end
  end.

(** [s.strip()] *)
Definition strip (s : string) : string := rstrip (lstrip s).

(** [s.split(sep)] for a one-character separator. *)
Fixpoint split (sep : ascii) (s : string) : list string :=
  match s with
  | EmptyString => [EmptyString]
  | String c r =>
      if Ascii.eqb c sep then EmptyString :: split sep r
      else match split sep r with
           | [] => [String c EmptyString]
           | h :: t => String c h :: t
           end
  end.

(** [sep.join(l)] *)
Definition join (sep : string) (l : list string) : string :=
  String.concat sep l.

(** Iterating a [str] yields its characters as one-character strings. *)
Fixpoint chars (s : string) : list string :=
  match s with
  | EmptyString => []
  | String c r => String c EmptyString :: chars r
  end.

Fixpoint lookup (k : string) (kw : list (string * string)) : option string :=
  match kw with
  | [] => None
  | (k', v) :: t => if String.eqb k' k then Some v else lookup k t
  end.

(** [template.format( *args, **kwargs)] for templates whose replacement
    fields are [{}] (the next positional argument) or [{name}].
    [field] is the field name read so far while inside braces.  [None]
    is the [ValueError], [IndexError] or [KeyError] Python raises. *)
Fixpoint format_from (field : option string) (args : list string)
         (kw : list (string * string)) (t : string) : option string :=
  match t with
  | EmptyString =>
      match field with None => Some EmptyString | Some _ => None end
  | String c r =>
      match field with
      | None =>
          if Ascii.eqb c "{" then format_from (Some EmptyString) args kw r
          else if Ascii.eqb c "}" then None
          else option_map (String c) (format_from None args kw r)
      | Some name =>
          if Ascii.eqb c "}" then
            match name with
            | EmptyString =>
                match args with
                | [] => None
                | v :: args' =>
                    option_map (append v) (format_from None args' kw r)
                end
            | _ =>
                match lookup name kw with
                | None => None
                | Some v =>
                    option_map (append v) (format_from None args kw r)
                end
            end
          else format_from (Some (name ++ String c EmptyString)%string) args kw r
      end
  end.

Definition format (t : string) (args : list string)
           (kw : list (string * string)) : option string :=
  format_from None args kw t.

(** [lst.remove(x)]: drops the first element equal to [x]; [None] is
    the [ValueError] of a list that does not hold [x]. *)
Fixpoint remove (x : string) (l : list string) : option (list string) :=
  match l with
  | [] => None
  | y :: t =>
      if String.eqb y x then Some t
      else option_map (cons y) (remove x t)
  end.

End Py.

(* ================================================================== *)
(** ** Module constants (lines 19-28) *)

Definition CONFIRM_MESSAGE : string :=
 (Py.nl ++
  "---------- MESSAGE FOLLOWS ----------" ++ Py.nl ++
  "Subject: {subject}" ++ Py.nl ++
  "From: {from_email}" ++ Py.nl ++
  "To: {recipient_list_formatted}" ++ Py.nl ++
  "Cc: {cc_formatted}" ++ Py.nl ++
  Py.nl ++
  "{message}" ++ Py.nl ++
  "------------ END MESSAGE ------------" ++ Py.nl)%string.

(* ================================================================== *)
(** ** Data *)

(** [django.conf.settings], the four attributes the command reads.
    [ADMINS] and [MANAGERS] are sequences of (name, address) pairs;
    [None] is an attribute that is not set. *)
Record Settings := {
  ADMINS : option (list (string * string));
  MANAGERS : option (list (string * string));
  EMAIL_SUBJECT_PREFIX : string;
  DEFAULT_FROM_EMAIL : string
}.

(** The value under [options['bcc']] and [options['cc']]: [None] or the
    flag's string when parsed, a list once split. *)
Inductive CopyVal :=
| CNone
| CStr (s : string)
| CList (l : list string).

(** Python truth value. *)
Definition truthy (v : CopyVal) : bool :=
  match v with
  | CNone => false
  | CStr EmptyString => false
  | CStr _ => true
  | CList [] => false
  | CList _ => true
  end.

(** [v or []] *)
Definition or_empty (v : CopyVal) : list string :=
  match v with
  | CList l => l
  | CStr s => if truthy v then Py.chars s else []
  | CNone => []
  end.

Record Options := {
  verbosity : option Z;
  subject : string;
  message : string;
  recipient : list string;
  interactive : bool;
  from_email : option string;
  fail_silently : bool;
  noprefix : bool;
  bcc : CopyVal;
  cc : CopyVal
}.

Definition set_message (v : string) (o : Options) : Options :=
  {| verbosity := verbosity o; subject := subject o; message := v;
     recipient := recipient o; interactive := interactive o;
     from_email := from_email o; fail_silently := fail_silently o;
     noprefix := noprefix o; bcc := bcc o; cc := cc o |}.

Definition set_interactive (v : bool) (o : Options) : Options :=
  {| verbosity := verbosity o; subject := subject o; message := message o;
     recipient := recipient o; interactive := v;
     from_email := from_email o; fail_silently := fail_silently o;
     noprefix := noprefix o; bcc := bcc o; cc := cc o |}.

Definition set_subject (v : string) (o : Options) : Options :=
  {| verbosity := verbosity o; subject := v; message := message o;
     recipient := recipient o; interactive := interactive o;
     from_email := from_email o; fail_silently := fail_silently o;
     noprefix := noprefix o; bcc := bcc o; cc := cc o |}.

Definition set_from_email (v : option string) (o : Options) : Options :=
  {| verbosity := verbosity o; subject := subject o; message := message o;
     recipient := recipient o; interactive := interactive o;
     from_email := v; fail_silently := fail_silently o;
     noprefix := noprefix o; bcc := bcc o; cc := cc o |}.

Definition set_bcc (v : CopyVal) (o : Options) : Options :=
  {| verbosity := verbosity o; subject := subject o; message := message o;
     recipient := recipient o; interactive := interactive o;
     from_email := from_email o; fail_silently := fail_silently o;
     noprefix := noprefix o; bcc := v; cc := cc o |}.

Definition set_cc (v : CopyVal) (o : Options) : Options :=
  {| verbosity := verbosity o; subject := subject o; message := message o;
     recipient := recipient o; interactive := interactive o;
     from_email := from_email o; fail_silently := fail_silently o;
     noprefix := noprefix o; bcc := bcc o; cc := v |}.

(** The keyword arguments of [EmailMessage(...)] as the command passes
    them (lines 143-150). *)
Record EmailMessage := {
  em_subject : string;
  em_body : string;
  em_from_email : option string;
  em_to : list string;
  em_bcc : CopyVal;
  em_cc : CopyVal
}.

Inductive Exc :=
| CommandError (msg : string)
| KeyboardInterrupt
| EOFError
| SystemExit (code : Z)
| MailError (detail : string)
| PyError (kind : string).

Inductive Outcome (A : Type) :=
| Return (a : A)
| Raise (e : Exc)
| OutOfFuel.
Arguments Return {A} a.
Arguments Raise {A} e.
Arguments OutOfFuel {A}.

Inductive Event :=
| EvOpenRead (path : string)
| EvStdinRead
| EvStdout (text : string)
| EvStderr (text : string)
| EvPrompt (prompt : string)
| EvSend (m : EmailMessage) (silently : bool).

(** What an operation the process waits on gives back: its result, or
    the operator's interrupt ([KeyboardInterrupt]) while the process
    waits. *)
Inductive Blocking (A : Type) :=
| Got (a : A)
| Interrupted.
Arguments Got {A} a.
Arguments Interrupted {A}.

(** The world one invocation runs in. *)
Record Env := {
  isfile : string -> bool;
  (** [open(path).read()]: the contents, or [str(exc)] of the
      [IOError]/[OSError] that line 97 catches.  A read that fails in
      another way (bytes that do not decode as text) is not caught
      there and has no counterpart here. *)
  file_read : string -> string + string;
  (** [sys.stdin.read()] *)
  stdin_read : Blocking string;
  (** [raw_input(prompt)]: a line, [None] for [EOFError]. *)
  raw_input : string -> Blocking (option string);
  (** The mail backend at work on a request: [Got None] when it
      delivers, [Got (Some detail)] when it fails, [Interrupted] when
      the operator interrupts it. *)
  transport : EmailMessage -> Blocking (option string)
}.

(* ================================================================== *)
(** ** The effect monad: a trace of events and an outcome *)

Definition M (A : Type) : Type := (list Event * Outcome A)%type.

Definition ret {A} (a : A) : M A := ([], Return a).
Definition raise {A} (e : Exc) : M A := ([], Raise e).
Definition emit (e : Event) : M unit := ([e], Return tt).
Definition out_of_fuel {A} : M A := ([], OutOfFuel).

Definition bind {A B} (m : M A) (k : A -> M B) : M B :=
  match m with
  | (ev, Return a) => let (ev', r) := k a in (ev ++ ev', r)
  | (ev, Raise e) => (ev, Raise e)
  | (ev, OutOfFuel) => (ev, OutOfFuel)
  end.

Notation "x <- m ;; k" := (bind m (fun x => k))
  (at level 61, m at next level, right associativity).
Notation "m ;; k" := (bind m (fun _ => k))
  (at level 61, right associativity).

Definition trace {A} (m : M A) : list Event := fst m.
Definition outcome {A} (m : M A) : Outcome A := snd m.

(** A computation that leaves no event. *)
Definition silent {A} (m : M A) : Prop := trace m = [].

(** A failed [str.format] raises. *)
Definition format (t : string) (args : list string)
           (kw : list (string * string)) : M string :=
  match Py.format t args kw with
  | Some s => ret s
  | None => raise (PyError "format")
  end.

(* ================================================================== *)
(** ** The command line ([Command.add_arguments], lines 34-86) *)

(** What the operator typed: the three positionals, and for every flag
    whether (or with which value) it was given.  [cl_verbosity] is the
    base command's own [--verbosity]. *)
Record CommandLine := {
  cl_subject : string;
  cl_message : string;
  cl_recipient : list string;
  cl_noinput : bool;
  cl_from : option string;
  cl_raise_error : bool;
  cl_noprefix : bool;
  cl_bcc : option string;
  cl_cc : option string;
  cl_verbosity : option Z
}.

(** argparse actions. *)
Definition store_true (default given : bool) : bool :=
  if given then true else default.
Definition store_false (default given : bool) : bool :=
  if given then false else default.
Definition store (default given : option string) : option string :=
  match given with Some v => Some v | None => default end.

Definition copy_of (v : option string) : CopyVal :=
  match v with Some s => CStr s | None => CNone end.

Definition add_arguments (cl : CommandLine) : Options :=
  {| verbosity := cl_verbosity cl;
     subject := cl_subject cl;
     message := cl_message cl;
     recipient := cl_recipient cl;
     (* '--noinput', '--no-input': store_false, dest='interactive', default=True *)
     interactive := store_false true (cl_noinput cl);
     (* '-f', '--from': dest='from_email', default=None *)
     from_email := store None (cl_from cl);
     (* '-r', '--raise-error': store_true, dest='fail_silently', default=False *)
     fail_silently := store_true false (cl_raise_error cl);
     (* '-n', '--noprefix': store_true, dest='noprefix', default=False *)
     noprefix := store_true false (cl_noprefix cl);
     (* '-b', '--bcc': dest='bcc', default=None *)
     bcc := copy_of (store None (cl_bcc cl));
     (* '-c', '--cc': dest='cc', default=None *)
     cc := copy_of (store None (cl_cc cl)) |}.

(* ================================================================== *)
(** ** [Command.handle_send_mail] and [Command.handle] (lines 88-160) *)

(** [int(v)] of a value that is an integer already. *)
Definition int (v : Z) : Z := v.

(** [options.get('verbosity', default)] *)
Definition get_verbosity (o : Options) (default : Z) : Z :=
  match verbosity o with Some v => v | None => default end.

(** [str(v)] of a value that is a string or [None]. *)
Definition str (v : option string) : string :=
  match v with Some s => s | None => "None" end.

(** [recipient in ('ADMINS', 'MANAGERS')] *)
Definition is_group (recipient : string) : bool :=
  String.eqb recipient "ADMINS" || String.eqb recipient "MANAGERS".

Definition PROMPT : string := "Send email message? [Y/n] ".
Definition CANCELLED : string := ("Operation cancelled." ++ Py.nl)%string.
Definition SENT : string := ("Message sent" ++ Py.nl)%string.

Module Command.
Section Command.

(** [django.core.validators.validate_email]: [true] when it returns,
    [false] when it raises [ValidationError]. *)
Variable validate_email : string -> bool.
Variable settings : Settings.
Variable env : Env.

(** [getattr(settings, l, ())] for the two names it is asked for. *)
Definition getattr_settings (l : string) : list (string * string) :=
  let attr :=
    if String.eqb l "ADMINS" then ADMINS settings
    else if String.eqb l "MANAGERS" then MANAGERS settings
    else None in
  match attr with Some v => v | None => [] end.

(** Line 107: [lambda l: [a[1] for a in getattr(settings, l, ())]] *)
Definition get_addresses (l : string) : list string :=
  map snd (getattr_settings l).

(** Lines 93-104. *)
Definition read_message (o : Options) : M Options :=
  let message := message o in
  if isfile env message then
    emit (EvOpenRead message) ;;
    match file_read env message with
    | inl text => ret (set_message text o)
    | inr exc =>
        msg <- format ("Error reading message file " ++ Py.dquote ++ "{}"
                       ++ Py.dquote ++ ": {}")%string [message; exc] [] ;;
        raise (CommandError msg)
    end
  else if String.eqb message "-" then
    emit EvStdinRead ;;
    match stdin_read env with
    | Got text => ret (set_message text (set_interactive false o))
    | Interrupted => raise KeyboardInterrupt
    end
  else ret (set_message message o).

(** Lines 110-111, for one of the keys [bcc], [cc]. *)
Definition split_copy (v : CopyVal) : M CopyVal :=
  if truthy v then
    match v with
    | CStr s => ret (CList (map Py.strip (Py.split "," s)))
    | _ => raise (PyError "AttributeError")
    end
  else ret v.

(** Lines 116-119: [for recipient in lst] over the list the body
    mutates.  The iterator holds the index [i] of the next element of
    the live list and stops when [i] is past its end. *)
Fixpoint resolve_groups (fuel i : nat) (lst : list string)
  : M (list string) :=
  match fuel with
  | O => out_of_fuel
  | S fuel' =>
      match nth_error lst i with
      | None => ret lst
      | Some recipient =>
          if is_group recipient then
            match Py.remove recipient lst with
            | None => raise (PyError "ValueError")
            | Some lst' =>
                resolve_groups fuel' (S i) (lst' ++ get_addresses recipient)
            end
          else resolve_groups fuel' (S i) lst
      end
  end.

(** Lines 121-125. *)
Fixpoint validate_all (lst : list string) : M unit :=
  match lst with
  | [] => ret tt
  | recipient :: rest =>
      if validate_email recipient then validate_all rest
      else
        msg <- format (Py.dquote ++ "{}" ++ Py.dquote
                       ++ " is not a valid email address")%string
                      [recipient] [] ;;
        raise (CommandError msg)
  end.

(** Lines 114-125 for a list. *)
Definition process_list (fuel : nat) (lst : list string)
  : M (list string) :=
  match lst with
  | [] => ret lst
  | _ =>
      lst' <- resolve_groups fuel 0 lst ;;
      validate_all lst' ;;
      ret lst'
  end.

(** Lines 114-125 for the value under [bcc] or [cc].  A non-empty
    [str] would be iterated by character. *)
Definition process_value (fuel : nat) (v : CopyVal) : M CopyVal :=
  if negb (truthy v) then ret v
  else
    match v with
    | CList l => l' <- process_list fuel l ;; ret (CList l')
    | CStr s =>
        if existsb is_group (Py.chars s)
        then raise (PyError "AttributeError")
        else validate_all (Py.chars s) ;; ret v
    | CNone => ret v
    end.

(** Lines 91-131: everything up to the finished request.  Returns the
    local [recipient_list] and the updated [options]. *)
Definition prepare (fuel : nat) (o : Options) : M (list string * Options) :=
  let subject := subject o in
  let recipients := recipient o in
  o <- read_message o ;;
  let recipient_list := recipients in
  b <- split_copy (bcc o) ;;
  let o := set_bcc b o in
  c <- split_copy (cc o) ;;
  let o := set_cc c o in
  recipient_list <- process_list fuel recipient_list ;;
  b <- process_value fuel (bcc o) ;;
  let o := set_bcc b o in
  c <- process_value fuel (cc o) ;;
  let o := set_cc c o in
  s <- format "{}{}"
         [if noprefix o then "" else EMAIL_SUBJECT_PREFIX settings; subject]
         [] ;;
  let o := set_subject s o in
  let o := match from_email o with
           | None => set_from_email (Some (DEFAULT_FROM_EMAIL settings)) o
           | Some _ => o
           end in
  ret (recipient_list, o).

(** Lines 134-136: the text handed to [self.stdout.write]. *)
Definition confirm_text (recipient_list : list string) (o : Options)
  : M string :=
  let recipient_list_formatted := Py.join ", " recipient_list in
  let cc_formatted := Py.join ", " (or_empty (cc o)) in
  format CONFIRM_MESSAGE []
    [("subject", subject o);
     ("from_email", str (from_email o));
     ("recipient_list_formatted", recipient_list_formatted);
     ("cc_formatted", cc_formatted);
     ("message", message o)].

(** Lines 143-150: the request the command builds. *)
Definition request (recipient_list : list string) (o : Options)
  : EmailMessage :=
  {| em_subject := subject o;
     em_body := message o;
     em_from_email := from_email o;
     em_to := recipient_list;
     em_bcc := bcc o;
     em_cc := cc o |}.

(** Modelled from the spec: the Mailer ([EmailMessage.send] of the
    framework), an external collaborator.  It attempts delivery; with
    [fail_silently] a delivery failure is swallowed, without it the
    failure is raised.  The call sits inside the [try] of [handle], so
    an interrupt while the Mailer is at work is a [KeyboardInterrupt]
    raised from this call. *)
Definition send (m : EmailMessage) (silently : bool) : M unit :=
  emit (EvSend m silently) ;;
  match transport env m with
  | Got None => ret tt
  | Got (Some detail) => if silently then ret tt else raise (MailError detail)
  | Interrupted => raise KeyboardInterrupt
  end.

(** Lines 133-153. *)
Definition confirm_and_send (verbosity : Z) (recipient_list : list string)
           (o : Options) : M unit :=
  (if (1 <? verbosity)%Z || interactive o then
     text <- confirm_text recipient_list o ;;
     emit (EvStdout text)
   else ret tt) ;;
  (if interactive o then
     emit (EvPrompt PROMPT) ;;
     match raw_input env PROMPT with
     | Interrupted => raise KeyboardInterrupt
     | Got None => raise EOFError
     | Got (Some answer) =>
         if Py.startswith (Py.lower answer) "n" then
           emit (EvStderr CANCELLED) ;;
           raise (SystemExit 1)
         else ret tt
     end
   else ret tt) ;;
  send (request recipient_list o) (fail_silently o) ;;
  if (1 <? verbosity)%Z then emit (EvStdout SENT) else ret tt.

(** Lines 88-153. *)
Definition handle_send_mail (fuel : nat) (o : Options) : M unit :=
  let verbosity := int (get_verbosity o 1%Z) in
  r <- prepare fuel o ;;
  confirm_and_send verbosity (fst r) (snd r).

(** Lines 155-160. *)
Definition handle (fuel : nat) (o : Options) : M unit :=
  match handle_send_mail fuel o with
  | (ev, Raise KeyboardInterrupt) =>
      (ev ++ [EvStderr CANCELLED], Raise (SystemExit 1))
  | r => r
  end.

End Command.
End Command.
Import Command.

(* ================================================================== *)
(** ** A sample world, for running the command on concrete inputs *)

Module Sample.

(** A stand-in for the framework's validator: an address has an
    at-sign with something before it. *)
Fixpoint has_at (s : string) : bool :=
  match s with
  | EmptyString => false
  | String c r => Ascii.eqb c "@" || has_at r
  end.

Definition validate_email (s : string) : bool :=
  match s with
  | EmptyString => false
  | String c r => negb (Ascii.eqb c "@") && has_at r
  end.

Definition settings : Settings :=
  {| ADMINS := Some [("Root", "root@x.com"); ("Ops", "ops@x.com")];
     MANAGERS := Some [("Boss", "boss@x.com")];
     EMAIL_SUBJECT_PREFIX := "[Django] ";
     DEFAULT_FROM_EMAIL := "webmaster@localhost" |}.

(** No files, the operator answers [answer], the backend delivers. *)
Definition env (answer : string) : Env :=
  {| isfile := fun _ => false;
     file_read := fun _ => inr "No such file or directory";
     stdin_read := Got "from stdin";
     raw_input := fun _ => Got (Some answer);
     transport := fun _ => Got None |}.

(** As [env], with a regular file named "-" in the working directory. *)
Definition env_dash_file (answer : string) : Env :=
  {| isfile := fun p => String.eqb p "-";
     file_read := fun _ => inl "from the file";
     stdin_read := Got "from stdin";
     raw_input := fun _ => Got (Some answer);
     transport := fun _ => Got None |}.

(** As [env], with a backend that fails. *)
Definition env_failing (answer : string) : Env :=
  {| isfile := fun _ => false;
     file_read := fun _ => inr "No such file or directory";
     stdin_read := Got "";
     raw_input := fun _ => Got (Some answer);
     transport := fun _ => Got (Some "Connection refused") |}.

Definition command_line (recipients : list string) : CommandLine :=
  {| cl_subject := "Hello";
     cl_message := "Hi there";
     cl_recipient := recipients;
     cl_noinput := false;
     cl_from := None;
     cl_raise_error := false;
     cl_noprefix := false;
     cl_bcc := None;
     cl_cc := None;
     cl_verbosity := Some 1%Z |}.

(** The same command line with [-r]. *)
Definition raising (cl : CommandLine) : CommandLine :=
  {| cl_subject := cl_subject cl; cl_message := cl_message cl;
     cl_recipient := cl_recipient cl; cl_noinput := cl_noinput cl;
     cl_from := cl_from cl; cl_raise_error := true;
     cl_noprefix := cl_noprefix cl; cl_bcc := cl_bcc cl;
     cl_cc := cl_cc cl; cl_verbosity := cl_verbosity cl |}.

(** The same command line with another message argument. *)
Definition saying (m : string) (cl : CommandLine) : CommandLine :=
  {| cl_subject := cl_subject cl; cl_message := m;
     cl_recipient := cl_recipient cl; cl_noinput := cl_noinput cl;
     cl_from := cl_from cl; cl_raise_error := cl_raise_error cl;
     cl_noprefix := cl_noprefix cl; cl_bcc := cl_bcc cl;
     cl_cc := cl_cc cl; cl_verbosity := cl_verbosity cl |}.

(** The same command line with [-c]. *)
Definition copying (c : string) (cl : CommandLine) : CommandLine :=
  {| cl_subject := cl_subject cl; cl_message := cl_message cl;
     cl_recipient := cl_recipient cl; cl_noinput := cl_noinput cl;
     cl_from := cl_from cl; cl_raise_error := cl_raise_error cl;
     cl_noprefix := cl_noprefix cl; cl_bcc := cl_bcc cl;
     cl_cc := Some c; cl_verbosity := cl_verbosity cl |}.

(** The options of [command_line recipients] once lines 91-131 ran,
    when no recipient is a group name. *)
Definition finished (recipients : list string) : Options :=
  set_from_email (Some "webmaster@localhost")
    (set_subject "[Django] Hello" (add_arguments (command_line recipients))).

(** The request of
    [send_email_message Hello 'Hi there' a@x.com ADMINS a@x.com
     -c 'c@x.com, MANAGERS'] *)
Definition mixed : CommandLine :=
  copying "c@x.com, MANAGERS" (command_line ["a@x.com"; "ADMINS"; "a@x.com"]).

Definition mixed_request : EmailMessage :=
  {| em_subject := "[Django] Hello";
     em_body := "Hi there";
     em_from_email := Some "webmaster@localhost";
     em_to := ["a@x.com"; "a@x.com"; "root@x.com"; "ops@x.com"];
     em_bcc := CNone;
     em_cc := CList ["c@x.com"; "boss@x.com"] |}.

(** As [env], with an operator who confirms and then interrupts the
    Mailer. *)
Definition env_interrupted_sending : Env :=
  {| isfile := fun _ => false;
     file_read := fun _ => inr "No such file or directory";
     stdin_read := Got "from stdin";
     raw_input := fun _ => Got (Some "y");
     transport := fun _ => Interrupted |}.

(** As [env], with input that ends before the operator answers. *)
Definition env_closed : Env :=
  {| isfile := fun _ => false;
     file_read := fun _ => inr "No such file or directory";
     stdin_read := Got "from stdin";
     raw_input := fun _ => Got None;
     transport := fun _ => Got None |}.

(** As [env], with a regular file "msg.txt" that cannot be read. *)
Definition env_unreadable : Env :=
  {| isfile := fun p => String.eqb p "msg.txt";
     file_read := fun _ => inr "Permission denied";
     stdin_read := Got "from stdin";
     raw_input := fun _ => Got (Some "y");
     transport := fun _ => Got None |}.

(** The same command line with [--noinput]. *)
Definition unattended (cl : CommandLine) : CommandLine :=
  {| cl_subject := cl_subject cl; cl_message := cl_message cl;
     cl_recipient := cl_recipient cl; cl_noinput := true;
     cl_from := cl_from cl; cl_raise_error := cl_raise_error cl;
     cl_noprefix := cl_noprefix cl; cl_bcc := cl_bcc cl;
     cl_cc := cl_cc cl; cl_verbosity := cl_verbosity cl |}.

(** The request of [command_line ["a@x.com"]] with body [b]. *)
Definition request_with_body (b : string) : EmailMessage :=
  {| em_subject := "[Django] Hello";
     em_body := b;
     em_from_email := Some "webmaster@localhost";
     em_to := ["a@x.com"];
     em_bcc := CNone;
     em_cc := CNone |}.

(** Settings whose administrators' addresses are the group name
    itself. *)
Definition looping_settings : Settings :=
  {| ADMINS := Some [("Root", "ADMINS"); ("Ops", "ADMINS")];
     MANAGERS := None;
     EMAIL_SUBJECT_PREFIX := "[Django] ";
     DEFAULT_FROM_EMAIL := "webmaster@localhost" |}.

End Sample.

(* ================================================================== *)
(** ** The behaviour the specification describes, in its own words *)

(** The preview layout of the specification's section 6: the opening
    banner line, the four header lines, a blank line, the body and the
    closing banner line. *)
Definition spec_preview (subject from_email : string)
           (recipients copies : list string) (message : string) : string :=
 ("---------- MESSAGE FOLLOWS ----------" ++ Py.nl ++
  "Subject: " ++ subject ++ Py.nl ++
  "From: " ++ from_email ++ Py.nl ++
  "To: " ++ Py.join ", " recipients ++ Py.nl ++
  "Cc: " ++ Py.join ", " copies ++ Py.nl ++
  Py.nl ++
  message ++ Py.nl ++
  "------------ END MESSAGE ------------" ++ Py.nl)%string.

(** The error text for an invalid address: the address in double
    quotes, then the fixed wording. *)
Definition invalid_address_message (recipient : string) : string :=
  (Py.dquote ++ recipient ++ Py.dquote ++ " is not a valid email address")%string.

(** A response that starts with the letter n, in either case. *)
Definition starts_with_n (answer : string) : bool :=
  match answer with
  | String c _ => Ascii.eqb c "n" || Ascii.eqb c "N"
  | EmptyString => false
  end.

(** The addresses the operator gave under [--bcc] or [--cc]. *)
Definition given_copies (v : CopyVal) : list string :=
  match v with
  | CStr s => if truthy v then map Py.strip (Py.split "," s) else []
  | _ => []
  end.

(** A bound on the length of a group lookup. *)
Definition lookup_bound (settings : Settings) : nat :=
  List.length (get_addresses settings "ADMINS")
  + List.length (get_addresses settings "MANAGERS").

(** An entry that is an address, not a group name. *)
Definition is_address (r : string) : bool := negb (is_group r).

(** No two group names next to each other. *)
Fixpoint groups_apart (lst : list string) : bool :=
  match lst with
  | [] => true
  | x :: rest =>
      match rest with
      | [] => true
      | y :: _ => negb (is_group x && is_group y) && groups_apart rest
      end
  end.

(** The preview event of a finished request, as the specification lays
    it out, after one leading newline. *)
Definition preview (rl : list string) (o : Options) : Event :=
  EvStdout (Py.nl ++ spec_preview (subject o) (str (from_email o)) rl
                                  (or_empty (cc o)) (message o))%string.

(** Line 89: [int(options.get('verbosity', 1))]. *)
Definition verbosity_of (o : Options) : Z := int (get_verbosity o 1%Z).

(** The error text for a message file that cannot be read: the fixed
    wording, the path in double quotes, then the cause. *)
Definition read_error_message (path exc : string) : string :=
  ("Error reading message file " ++ Py.dquote ++ path ++ Py.dquote
   ++ ": " ++ exc)%string.

(** Kinds of event. *)
Definition is_send (e : Event) : bool :=
  match e with EvSend _ _ => true | _ => false end.

Definition is_read (e : Event) : bool :=
  match e with EvOpenRead _ | EvStdinRead => true | _ => false end.

(** The failures an invocation can end with when its options come from
    the command line: a [CommandError], the end of input at the prompt,
    the Mailer's failure, or [sys.exit(1)]. *)
Definition expected_failure (e : Exc) : Prop :=
  match e with
  | CommandError _ | EOFError | MailError _ => True
  | SystemExit code => code = 1%Z
  | KeyboardInterrupt | PyError _ => False
  end.

(** What lines 133-141 write before the request goes out. *)
Definition shown (v : Z) (rl : list string) (o : Options) : list Event :=
  if interactive o then [preview rl o; EvPrompt PROMPT]
  else if (1 <? v)%Z then [preview rl o] else [].

(** What lines 152-153 write after the Mailer returned. *)
Definition sent_note (v : Z) : list Event :=
  if (1 <? v)%Z then [EvStdout SENT] else [].

(** The operator's answer when there is a prompt, and an accepting one
    when there is none. *)
Definition answer_of (env : Env) (o : Options) : Blocking (option string) :=
  if interactive o then raw_input env PROMPT else Got (Some EmptyString).

Fixpoint count_commas (s : string) : nat :=
  match s with
  | EmptyString => 0
  | String c r => (if Ascii.eqb c "," then 1 else 0) + count_commas r
  end.

Fixpoint has_comma (s : string) : bool :=
  match s with
  | EmptyString => false
  | String c r => Ascii.eqb c "," || has_comma r
  end.

(** A number of iterations that is enough to resolve [lst] when group
    lookups hold addresses only. *)
Definition resolution_steps (settings : Settings) (lst : list string) : nat :=
  List.length (filter is_group lst) * S (lookup_bound settings)
  + List.length lst.

(** The operator declines at the prompt, or interrupts while the
    command waits at the prompt or for standard input; [t] is the trace
    of the invocation. *)
Definition cancelled_waiting (env : Env) (t : list Event) : Prop :=
  (In (EvPrompt PROMPT) t
   /\ ((exists answer, raw_input env PROMPT = Got (Some answer)
                       /\ Py.startswith (Py.lower answer) "n" = true)
       \/ raw_input env PROMPT = Interrupted))
  \/ (In EvStdinRead t /\ stdin_read env = Interrupted).

(** The operator interrupts while the Mailer is at work on a request
    of the invocation. *)
Definition interrupted_sending (env : Env) (t : list Event) : Prop :=
  exists m silently,
    In (EvSend m silently) t /\ transport env m = Interrupted.

(** Lines 114-119 for one list, before it is validated: an empty
    list is passed over, any other has its group names resolved. *)
Definition resolved (settings : Settings) (fuel : nat) (lst : list string)
  : M (list string) :=
  match lst with
  | [] => ret lst
  | _ => resolve_groups settings fuel 0 lst
  end.

(** What a finished request owes to the parsed options. *)
Section Prepared.

Variable validate_email : string -> bool.
Variable settings : Settings.
Variable env : Env.

Record prepared (o : Options) (ev : list Event) (rl : list string)
       (o' : Options) : Prop := {
  prep_read : exists o1,
    read_message env o = (ev, Return o1)
    /\ message o' = message o1 /\ interactive o' = interactive o1;
  prep_to_valid : Forall (fun r => validate_email r = true) rl;
  prep_to_kept : exists extra,
    filter is_address rl = filter is_address (recipient o) ++ extra;
  prep_bcc_valid :
    Forall (fun r => validate_email r = true) (or_empty (bcc o'));
  prep_bcc_kept : exists extra,
    filter is_address (or_empty (bcc o'))
    = filter is_address (given_copies (bcc o)) ++ extra;
  prep_cc_valid :
    Forall (fun r => validate_email r = true) (or_empty (cc o'));
  prep_cc_kept : exists extra,
    filter is_address (or_empty (cc o'))
    = filter is_address (given_copies (cc o)) ++ extra;
  prep_subject :
    subject o' = ((if noprefix o then "" else EMAIL_SUBJECT_PREFIX settings)
                  ++ subject o)%string;
  prep_from :
    from_email o' = Some (match from_email o with
                          | Some f => f
                          | None => DEFAULT_FROM_EMAIL settings
                          end);
  prep_silently : fail_silently o' = fail_silently o;
  prep_verbosity : verbosity o' = verbosity o
}.

End Prepared.

(* ================================================================== *)
(** ** Strings *)

Lemma append_empty_r (s : string) : (s ++ "")%string = s.
Proof.
  induction s as [|c s IH]; simpl; [reflexivity | now rewrite IH].
Qed.

Lemma lower_char_n (c : ascii) :
  Ascii.eqb (Py.lower_char c) "n" = Ascii.eqb c "n" || Ascii.eqb c "N".
Proof.
  destruct c as [[] [] [] [] [] [] [] []]; reflexivity.
Qed.

Lemma declined_starts_with_n (answer : string) :
  Py.startswith (Py.lower answer) "n" = starts_with_n answer.
Proof.
  destruct answer as [|c r]; [reflexivity|].
  unfold Py.startswith; simpl.
  rewrite <- lower_char_n.
  destruct (Py.lower_char c) as [[] [] [] [] [] [] [] []];
    try reflexivity; now destruct (Py.lower r).
Qed.

Lemma is_group_cases (r : string) :
  is_group r = true <-> r = "ADMINS" \/ r = "MANAGERS".
Proof.
  unfold is_group. rewrite orb_true_iff, !String.eqb_eq. tauto.
Qed.

(* ================================================================== *)
(** ** The monad *)

Lemma trace_bind {A B} (m : M A) (k : A -> M B) :
  trace (bind m k) =
  trace m ++ match outcome m with Return a => trace (k a) | _ => [] end.
Proof.
  destruct m as [ev [a| |]]; simpl; try now rewrite app_nil_r.
  now destruct (k a).
Qed.

Lemma outcome_bind {A B} (m : M A) (k : A -> M B) :
  outcome (bind m k) =
  match outcome m with
  | Return a => outcome (k a)
  | Raise e => Raise e
  | OutOfFuel => OutOfFuel
  end.
Proof.
  destruct m as [ev [a| |]]; simpl; try reflexivity.
  now destruct (k a).
Qed.

Lemma bind_ret {A B} (a : A) (k : A -> M B) : bind (ret a) k = k a.
Proof. unfold bind, ret. now destruct (k a). Qed.

Lemma bind_silent {A B} (a : A) (k : A -> M B) :
  bind ([], Return a) k = k a.
Proof. exact (bind_ret a k). Qed.

Lemma bind_Return_inv {A B} (m : M A) (k : A -> M B) ev b :
  bind m k = (ev, Return b) ->
  exists ev1 a ev2,
    m = (ev1, Return a) /\ k a = (ev2, Return b) /\ ev = ev1 ++ ev2.
Proof.
  destruct m as [ev1 [a| |]]; simpl; try discriminate.
  destruct (k a) as [ev2 r] eqn:E. intros H; inversion H; subst.
  now exists ev1, a, ev2.
Qed.

Lemma surjective_M {A} (m : M A) : m = (trace m, outcome m).
Proof. now destruct m. Qed.

(* ================================================================== *)
(** ** Formatting *)

Lemma format_pair (a b : string) :
  format "{}{}" [a; b] [] = ret (a ++ b)%string.
Proof.
  unfold format, Py.format; simpl. now rewrite append_empty_r.
Qed.

Lemma format_invalid_address (recipient : string) :
  format (Py.dquote ++ "{}" ++ Py.dquote ++ " is not a valid email address")%string
         [recipient] [] = ret (invalid_address_message recipient).
Proof. reflexivity. Qed.

Lemma format_read_error (path exc : string) :
  exists msg,
    format ("Error reading message file " ++ Py.dquote ++ "{}"
            ++ Py.dquote ++ ": {}")%string [path; exc] [] = ret msg.
Proof. eexists. reflexivity. Qed.

Lemma confirm_text_layout (recipient_list : list string) (o : Options) :
  confirm_text recipient_list o =
  ret (Py.nl ++ spec_preview (subject o) (str (from_email o)) recipient_list
                             (or_empty (cc o)) (message o))%string.
Proof. reflexivity. Qed.

(* ================================================================== *)
(** ** Resolving group names *)

Section Resolution.

Variable settings : Settings.

Local Abbreviation resolve := (resolve_groups settings).
Local Abbreviation addresses := (get_addresses settings).

Lemma resolve_groups_silent fuel : forall i lst,
  trace (resolve fuel i lst) = [].
Proof.
  induction fuel as [|fuel IH]; intros i lst; simpl; [reflexivity|].
  destruct (nth_error lst i) as [r|]; [|reflexivity].
  destruct (is_group r); [|apply IH].
  destruct (Py.remove r lst); [apply IH | reflexivity].
Qed.

Lemma remove_In (x : string) (lst : list string) :
  In x lst -> exists lst', Py.remove x lst = Some lst'.
Proof.
  induction lst as [|y t IH]; simpl; [tauto|].
  intros H. destruct (String.eqb y x) eqn:E; [eauto|].
  destruct H as [H|H]; [subst; rewrite String.eqb_refl in E; discriminate|].
  destruct (IH H) as [t' Ht]. rewrite Ht. simpl. eauto.
Qed.

Lemma remove_group_addresses (x : string) : forall lst lst',
  is_group x = true ->
  Py.remove x lst = Some lst' ->
  filter is_address lst' = filter is_address lst.
Proof.
  induction lst as [|y t IH]; simpl; intros lst' G H; [discriminate|].
  destruct (String.eqb y x) eqn:E.
  - apply String.eqb_eq in E; subst y. inversion H; subst.
    unfold is_address at 2. now rewrite G.
  - destruct (Py.remove x t) as [t'|]; [|discriminate].
    simpl in H. inversion H; subst. simpl.
    now rewrite (IH t' G eq_refl).
Qed.

(** Resolution never raises: the element the iterator yields is in
    the list, so [remove] finds it. *)
Lemma resolve_groups_no_raise fuel : forall i lst e,
  outcome (resolve fuel i lst) <> Raise e.
Proof.
  induction fuel as [|fuel IH]; intros i lst e; simpl; [discriminate|].
  destruct (nth_error lst i) as [r|] eqn:N; [|discriminate].
  destruct (is_group r); [|apply IH].
  destruct (remove_In r lst (nth_error_In _ _ N)) as [lst' R].
  rewrite R. apply IH.
Qed.

(** The addresses of the input come through resolution in their
    order and number; whatever resolution adds comes after them. *)
Lemma resolve_groups_keeps_addresses fuel : forall i lst ev lst',
  resolve fuel i lst = (ev, Return lst') ->
  exists extra,
    filter is_address lst' = filter is_address lst ++ extra.
Proof.
  induction fuel as [|fuel IH]; intros i lst ev lst'; simpl; [discriminate|].
  destruct (nth_error lst i) as [r|] eqn:N.
  - destruct (is_group r) eqn:G.
    + destruct (Py.remove r lst) as [l1|] eqn:R; [|discriminate].
      intros H. destruct (IH _ _ _ _ H) as [extra E].
      rewrite filter_app, (remove_group_addresses r lst l1 G R) in E.
      rewrite <- app_assoc in E. eauto.
    + apply IH.
  - intros H. inversion H; subst. exists []. now rewrite app_nil_r.
Qed.

(** *** Group lookups that hold addresses only *)

Hypothesis lookups_plain :
  forall g, Forall (fun r => is_group r = false) (addresses g).

Local Abbreviation lookup_bound := (lookup_bound settings).

Lemma lookup_length (g : string) :
  is_group g = true -> List.length (addresses g) <= lookup_bound.
Proof.
  intros G. apply is_group_cases in G. unfold lookup_bound.
  destruct G; subst; lia.
Qed.

Lemma remove_length (x : string) : forall lst lst',
  Py.remove x lst = Some lst' -> List.length lst = S (List.length lst').
Proof.
  induction lst as [|y t IH]; simpl; intros lst' H; [discriminate|].
  destruct (String.eqb y x); [now inversion H|].
  destruct (Py.remove x t) as [t'|]; [|discriminate].
  inversion H; subst; simpl. now rewrite (IH t' eq_refl).
Qed.

Lemma remove_group_count (x : string) : forall lst lst',
  is_group x = true ->
  Py.remove x lst = Some lst' ->
  List.length (filter is_group lst) = S (List.length (filter is_group lst')).
Proof.
  induction lst as [|y t IH]; simpl; intros lst' G H; [discriminate|].
  destruct (String.eqb y x) eqn:E.
  - apply String.eqb_eq in E; subst y. inversion H; subst.
    now rewrite G.
  - destruct (Py.remove x t) as [t'|]; [|discriminate].
    inversion H; subst; simpl.
    destruct (is_group y); simpl; now rewrite (IH t' G eq_refl).
Qed.

Lemma filter_group_plain (l : list string) :
  Forall (fun r => is_group r = false) l -> filter is_group l = [].
Proof.
  induction 1 as [|x l Hx _ IH]; simpl; [reflexivity|]. now rewrite Hx.
Qed.

(** The loop ends: every step either moves the iterator along a list
    of the same length or takes one group name out of the list. *)
Lemma resolve_groups_terminates fuel : forall i lst,
  List.length (filter is_group lst) * S lookup_bound + (List.length lst - i) < fuel ->
  exists lst', resolve fuel i lst = ([], Return lst').
Proof.
  induction fuel as [|fuel IH]; intros i lst Hm; [lia|]. simpl.
  destruct (nth_error lst i) as [r|] eqn:N; [|now exists lst].
  assert (Hi : i < List.length lst) by (apply nth_error_Some; congruence).
  destruct (is_group r) eqn:G.
  - destruct (remove_In r lst (nth_error_In _ _ N)) as [l1 R]. rewrite R.
    apply IH.
    rewrite filter_app, (filter_group_plain _ (lookups_plain r)), app_nil_r.
    rewrite length_app.
    pose proof (remove_length _ _ _ R).
    pose proof (remove_group_count _ _ _ G R) as Hc.
    pose proof (lookup_length r G).
    rewrite Hc in Hm. simpl in Hm. lia.
  - apply IH. lia.
Qed.

(** Walking over addresses changes nothing. *)
Lemma resolve_groups_plain fuel : forall i lst ev lst',
  Forall (fun r => is_group r = false) lst ->
  resolve fuel i lst = (ev, Return lst') -> lst' = lst.
Proof.
  induction fuel as [|fuel IH]; intros i lst ev lst' P; simpl;
    [discriminate|].
  destruct (nth_error lst i) as [r|] eqn:N.
  - rewrite Forall_forall in P.
    rewrite (P r (nth_error_In _ _ N)).
    apply IH. now apply Forall_forall.
  - intros H. now inversion H.
Qed.

Lemma remove_after_plain (x : string) : forall pre rest,
  is_group x = true ->
  Forall (fun r => is_group r = false) pre ->
  Py.remove x (pre ++ x :: rest) = Some (pre ++ rest).
Proof.
  induction pre as [|y pre IH]; simpl; intros rest G P.
  - now rewrite String.eqb_refl.
  - inversion P as [|? ? Hy P']; subst.
    destruct (String.eqb y x) eqn:E.
    + apply String.eqb_eq in E. congruence.
    + now rewrite (IH rest G P').
Qed.

Lemma groups_apart_tail (x : string) (l : list string) :
  groups_apart (x :: l) = true -> groups_apart l = true.
Proof.
  destruct l as [|y l]; [reflexivity|].
  change (groups_apart (x :: y :: l))
    with (negb (is_group x && is_group y) && groups_apart (y :: l)).
  intros H. now apply andb_true_iff in H.
Qed.

Lemma groups_apart_head (x y : string) (l : list string) :
  groups_apart (x :: y :: l) = true ->
  is_group x = true -> is_group y = false.
Proof.
  change (groups_apart (x :: y :: l))
    with (negb (is_group x && is_group y) && groups_apart (y :: l)).
  intros H G. apply andb_true_iff in H as [H _]. rewrite G in H.
  simpl in H. now destruct (is_group y).
Qed.

(** With [seen] behind the iterator, [todo] ahead of it and [added]
    already appended: when no two group names are adjacent in [todo],
    every group name is taken out and its lookup appended. *)
Lemma resolve_groups_apart_from fuel : forall todo seen added ev lst',
  Forall (fun r => is_group r = false) seen ->
  Forall (fun r => is_group r = false) added ->
  groups_apart todo = true ->
  resolve fuel (List.length seen) (seen ++ todo ++ added) = (ev, Return lst') ->
  lst' = seen ++ filter is_address todo ++ added
              ++ flat_map addresses (filter is_group todo).
Proof.
  induction fuel as [|fuel IH]; intros todo seen added ev lst' Ps Pa Ap;
    simpl; [discriminate|].
  destruct todo as [|x todo].
  - simpl. rewrite app_nil_r. intros H.
    destruct (nth_error (seen ++ added) (List.length seen)) as [r|] eqn:N.
    + assert (P : Forall (fun r => is_group r = false) (seen ++ added))
        by (apply Forall_app; split; assumption).
      rewrite Forall_forall in P.
      rewrite (P r (nth_error_In _ _ N)) in H.
      apply resolve_groups_plain in H; [assumption|].
      now apply Forall_forall.
    + now inversion H.
  - rewrite nth_error_app2 by lia. rewrite Nat.sub_diag. simpl.
    destruct (is_group x) eqn:G.
    + rewrite (remove_after_plain x seen (todo ++ added) G Ps).
      unfold is_address at 1. rewrite G. simpl.
      destruct todo as [|y todo].
      * simpl. intros H.
        apply resolve_groups_plain in H.
        -- subst. now rewrite !app_nil_r, <- app_assoc.
        -- rewrite <- app_assoc.
           repeat (apply Forall_app; split); auto.
      * pose proof (groups_apart_head _ _ _ Ap G) as Gy.
        apply groups_apart_tail in Ap.
        intros H.
        specialize (IH todo (seen ++ [y]) (added ++ addresses x) ev lst').
        rewrite length_app, Nat.add_1_r in IH. simpl in IH.
        replace ((seen ++ [y]) ++ todo ++ added ++ addresses x)
          with ((seen ++ y :: todo ++ added) ++ addresses x) in IH
          by (repeat first [rewrite <- app_assoc | progress simpl]; reflexivity).
        rewrite IH; auto.
        -- simpl. unfold is_address at 2. rewrite Gy. simpl.
           now rewrite <- !app_assoc.
        -- apply Forall_app; split; auto.
        -- apply Forall_app; split; auto.
        -- now apply groups_apart_tail in Ap.
    + intros H.
      specialize (IH todo (seen ++ [x]) added ev lst').
      rewrite length_app, Nat.add_1_r in IH. simpl in IH.
      rewrite <- app_assoc in IH. simpl in IH.
      rewrite IH; auto.
      * simpl. unfold is_address at 2. rewrite G. simpl.
        now rewrite <- !app_assoc.
      * apply Forall_app; split; auto.
      * now apply groups_apart_tail in Ap.
Qed.

(** What resolution computes when no two group names are adjacent:
    the addresses of the input in their order, then the lookup of
    each group name in the order the names were given. *)
Lemma resolve_groups_apart (lst : list string) :
  groups_apart lst = true ->
  exists fuel0, forall fuel, fuel0 <= fuel ->
    resolve fuel 0 lst =
    ([], Return (filter is_address lst
                 ++ flat_map addresses (filter is_group lst))).
Proof.
  intros Ap.
  exists (S (List.length (filter is_group lst) * S lookup_bound + (List.length lst - 0))).
  intros fuel Hf.
  destruct (resolve_groups_terminates fuel 0 lst) as [lst' R]; [lia|].
  rewrite R. do 2 f_equal.
  pose proof (resolve_groups_apart_from fuel lst [] [] [] lst') as H.
  simpl in H. rewrite app_nil_r in H. now apply H.
Qed.

End Resolution.

(* ================================================================== *)
(** ** One invocation *)

Lemma silent_bind {A B} (m : M A) (k : A -> M B) :
  silent m -> (forall a, silent (k a)) -> silent (bind m k).
Proof.
  unfold silent. intros Hm Hk. rewrite trace_bind, Hm.
  destruct (outcome m); simpl; auto.
Qed.

Lemma silent_Return {A} (m : M A) ev a :
  silent m -> m = (ev, Return a) -> ev = [].
Proof. unfold silent. intros H E. now rewrite E in H. Qed.

Lemma silent_format t args kw : silent (format t args kw).
Proof. unfold silent, format. now destruct (Py.format t args kw). Qed.

Ltac silence :=
  repeat first
    [ apply silent_bind; [|intros ?]
    | apply silent_format
    | reflexivity ].

Section Run.

Variable validate_email : string -> bool.
Variable settings : Settings.
Variable env : Env.

Local Abbreviation valid := (fun r => validate_email r = true).
Local Abbreviation validate := (validate_all validate_email).
Local Abbreviation process := (process_list validate_email settings).
Local Abbreviation process_copy := (process_value validate_email settings).
Local Abbreviation prepare := (prepare validate_email settings env).
Local Abbreviation handle_send_mail :=
  (handle_send_mail validate_email settings env).
Local Abbreviation handle := (handle validate_email settings env).

(** *** Validation *)

Lemma validate_all_silent (lst : list string) : silent (validate lst).
Proof.
  induction lst as [|r lst IH]; simpl; [reflexivity|].
  destruct (validate_email r); [assumption | reflexivity].
Qed.

Lemma validate_all_valid (lst : list string) :
  Forall valid lst -> validate lst = ([], Return tt).
Proof.
  induction 1 as [|r lst Hr _ IH]; simpl; [reflexivity|]. now rewrite Hr.
Qed.

Lemma validate_all_first_invalid (pre : list string) bad post :
  Forall valid pre ->
  validate_email bad = false ->
  validate (pre ++ bad :: post)
  = ([], Raise (CommandError (invalid_address_message bad))).
Proof.
  induction 1 as [|r pre Hr _ IH]; simpl; intros Hb.
  - now rewrite Hb.
  - rewrite Hr. auto.
Qed.

Lemma validate_all_Return (lst : list string) ev u :
  validate lst = (ev, Return u) -> Forall valid lst.
Proof.
  induction lst as [|r lst IH]; simpl; [constructor|].
  destruct (validate_email r) eqn:Hr; [|discriminate].
  intros H. constructor; auto.
Qed.

(** *** One list: resolution, then validation *)

Lemma process_list_silent fuel lst : silent (process fuel lst).
Proof.
  unfold process_list. destruct lst; [reflexivity|].
  apply silent_bind; [apply resolve_groups_silent|intros lst'].
  apply silent_bind; [apply validate_all_silent|reflexivity].
Qed.

Lemma process_list_Return fuel lst ev lst' :
  process fuel lst = (ev, Return lst') ->
  Forall valid lst' /\
  exists extra, filter is_address lst' = filter is_address lst ++ extra.
Proof.
  unfold process_list. destruct lst as [|x lst].
  - intros H; inversion H; subst. split; [constructor | now exists []].
  - intros H.
    apply bind_Return_inv in H as (ev1 & l1 & ev2 & R & H & _).
    apply bind_Return_inv in H as (ev3 & [] & ev4 & V & H & _).
    inversion H; subst. split.
    + eapply validate_all_Return; eauto.
    + eapply resolve_groups_keeps_addresses; eauto.
Qed.

Lemma chars_no_group (s : string) : existsb is_group (Py.chars s) = false.
Proof.
  induction s as [|c s IH]; simpl; [reflexivity|]. rewrite IH.
  unfold is_group. simpl.
  destruct (Ascii.eqb c "A"), (Ascii.eqb c "M"); reflexivity.
Qed.

Lemma process_value_silent fuel v : silent (process_copy fuel v).
Proof.
  unfold process_value. destruct (negb (truthy v)); [reflexivity|].
  destruct v as [|s|l]; [reflexivity| |].
  - destruct (existsb is_group (Py.chars s)); [reflexivity|].
    apply silent_bind; [apply validate_all_silent|reflexivity].
  - apply silent_bind; [apply process_list_silent|reflexivity].
Qed.

Lemma process_value_Return fuel v ev v' :
  process_copy fuel v = (ev, Return v') ->
  Forall valid (or_empty v') /\
  exists extra,
    filter is_address (or_empty v')
    = filter is_address (or_empty v) ++ extra.
Proof.
  unfold process_value. destruct (truthy v) eqn:T; simpl.
  - destruct v as [|s|l]; [discriminate| |].
    + rewrite chars_no_group. intros H.
      apply bind_Return_inv in H as (ev1 & [] & ev2 & V & H & _).
      inversion H; subst. unfold or_empty. rewrite T. split.
      * eapply validate_all_Return; eauto.
      * exists []. now rewrite app_nil_r.
    + intros H.
      apply bind_Return_inv in H as (ev1 & l1 & ev2 & P & H & _).
      inversion H; subst. simpl.
      eapply process_list_Return; eauto.
  - intros H; inversion H; subst. split.
    + destruct v' as [|s|[|x l]]; unfold or_empty; try rewrite T;
        try constructor; discriminate.
    + exists []. now rewrite app_nil_r.
Qed.

Lemma split_copy_silent v : silent (split_copy v).
Proof.
  unfold split_copy. destruct (truthy v); [|reflexivity].
  destruct v; reflexivity.
Qed.

Lemma split_copy_Return v ev v' :
  split_copy v = (ev, Return v') -> or_empty v' = given_copies v.
Proof.
  unfold split_copy. destruct (truthy v) eqn:T.
  - destruct v as [|s|l]; try discriminate.
    intros H; inversion H; subst. unfold given_copies. now rewrite T.
  - intros H; inversion H; subst.
    destruct v' as [|s|[|x l]]; unfold or_empty, given_copies;
      try rewrite T; try reflexivity; discriminate.
Qed.

(** *** Lines 91-131 *)

Lemma read_message_events (o : Options) (e : Event) :
  In e (trace (read_message env o)) ->
  e = EvOpenRead (message o) \/ e = EvStdinRead.
Proof.
  unfold read_message.
  destruct (isfile env (message o)).
  - destruct (file_read env (message o)) as [text|exc].
    + simpl. intuition auto.
    + destruct (format_read_error (message o) exc) as [msg ->].
      simpl. intuition auto.
  - destruct (String.eqb (message o) "-"); [|simpl; tauto].
    destruct (stdin_read env); simpl; intuition auto.
Qed.

(** Reading the body touches [message] and [interactive] only. *)
Lemma read_message_Return (o : Options) ev o1 :
  read_message env o = (ev, Return o1) ->
  o1 = set_message (message o1) (set_interactive (interactive o1) o).
Proof.
  unfold read_message.
  destruct (isfile env (message o)).
  - destruct (file_read env (message o)) as [text|exc].
    + simpl. intros H; inversion H; subst. now destruct o.
    + destruct (format_read_error (message o) exc) as [msg ->].
      discriminate.
  - destruct (String.eqb (message o) "-").
    + destruct (stdin_read env); simpl; [|discriminate].
      intros H; inversion H; subst. now destruct o.
    + intros H; inversion H; subst. now destruct o.
Qed.

Lemma prepare_trace fuel (o : Options) :
  trace (prepare fuel o) = trace (read_message env o).
Proof.
  unfold Command.prepare. rewrite trace_bind.
  destruct (outcome (read_message env o)) as [o1| |];
    try now rewrite app_nil_r.
  match goal with
  | |- _ ++ ?t = _ => assert (S : t = []); [|now rewrite S, app_nil_r]
  end.
  apply silent_bind; [apply split_copy_silent|intros b].
  apply silent_bind; [apply split_copy_silent|intros c].
  apply silent_bind; [apply process_list_silent|intros rl].
  apply silent_bind; [apply process_value_silent|intros b'].
  apply silent_bind; [apply process_value_silent|intros c'].
  apply silent_bind; [apply silent_format|intros s].
  reflexivity.
Qed.

Lemma prepare_Return fuel (o : Options) ev rl o' :
  prepare fuel o = (ev, Return (rl, o')) ->
  prepared validate_email settings env o ev rl o'.
Proof.
  unfold Command.prepare. intros H.
  apply bind_Return_inv in H as (ev1 & o1 & ? & R & H & ->).
  apply bind_Return_inv in H as (? & b & ? & Sb & H & ->).
  apply bind_Return_inv in H as (? & c & ? & Sc & H & ->).
  apply bind_Return_inv in H as (? & rl1 & ? & Pl & H & ->).
  apply bind_Return_inv in H as (? & b' & ? & Pb & H & ->).
  apply bind_Return_inv in H as (? & c' & ? & Pc & H & ->).
  rewrite format_pair, bind_ret in H. simpl in *.
  pose proof (silent_Return _ _ _ (split_copy_silent _) Sb).
  pose proof (silent_Return _ _ _ (split_copy_silent _) Sc).
  pose proof (silent_Return _ _ _ (process_list_silent _ _) Pl).
  pose proof (silent_Return _ _ _ (process_value_silent _ _) Pb).
  pose proof (silent_Return _ _ _ (process_value_silent _ _) Pc).
  subst. simpl in H.
  pose proof (read_message_Return _ _ _ R) as E1.
  apply split_copy_Return in Sb. apply split_copy_Return in Sc.
  apply process_list_Return in Pl as [Vl Kl].
  apply process_value_Return in Pb as [Vb Kb].
  apply process_value_Return in Pc as [Vc Kc].
  rewrite Sb in Kb. rewrite Sc in Kc.
  assert (F : from_email o1 = from_email o) by (rewrite E1; reflexivity).
  assert (N : noprefix o1 = noprefix o) by (rewrite E1; reflexivity).
  assert (B : bcc o1 = bcc o) by (rewrite E1; reflexivity).
  assert (C : cc o1 = cc o) by (rewrite E1; reflexivity).
  assert (Fs : fail_silently o1 = fail_silently o)
    by (rewrite E1; reflexivity).
  assert (Vb' : verbosity o1 = verbosity o) by (rewrite E1; reflexivity).
  rewrite B in Kb. rewrite C in Kc. rewrite N in H.
  destruct (from_email o1) as [f|] eqn:Ef;
    inversion H; subst; clear H; simpl; rewrite app_nil_r;
    constructor; simpl; eauto;
    try (rewrite <- F; reflexivity);
    try (rewrite <- F, Ef; reflexivity).
Qed.

(** *** Lines 133-153 *)

Local Abbreviation confirm := (confirm_and_send env).

Lemma send_trace m silently :
  trace (send env m silently) = [EvSend m silently].
Proof.
  unfold send. rewrite trace_bind. simpl.
  destruct (transport env m) as [[detail|]|]; [destruct silently| |];
    reflexivity.
Qed.

Ltac run_confirm :=
  unfold confirm_and_send, send, preview;
  rewrite ?confirm_text_layout.

Lemma confirm_interrupted v rl o :
  interactive o = true ->
  raw_input env PROMPT = Interrupted ->
  confirm v rl o = ([preview rl o; EvPrompt PROMPT], Raise KeyboardInterrupt).
Proof.
  intros I R. run_confirm. rewrite I, R, orb_true_r. reflexivity.
Qed.

Lemma confirm_end_of_input v rl o :
  interactive o = true ->
  raw_input env PROMPT = Got None ->
  confirm v rl o = ([preview rl o; EvPrompt PROMPT], Raise EOFError).
Proof.
  intros I R. run_confirm. rewrite I, R, orb_true_r. reflexivity.
Qed.

Lemma confirm_declined v rl o answer :
  interactive o = true ->
  raw_input env PROMPT = Got (Some answer) ->
  starts_with_n answer = true ->
  confirm v rl o
  = ([preview rl o; EvPrompt PROMPT; EvStderr CANCELLED],
     Raise (SystemExit 1)).
Proof.
  intros I R D. run_confirm.
  rewrite I, R, orb_true_r, declined_starts_with_n, D. reflexivity.
Qed.

Lemma confirm_accepted v rl o answer :
  interactive o = true ->
  raw_input env PROMPT = Got (Some answer) ->
  starts_with_n answer = false ->
  exists rest,
    trace (confirm v rl o)
    = preview rl o :: EvPrompt PROMPT
        :: EvSend (request rl o) (fail_silently o) :: rest.
Proof.
  intros I R D. run_confirm.
  rewrite I, R, orb_true_r, declined_starts_with_n, D.
  destruct (transport env (request rl o)) as [[detail|]|];
    [destruct (fail_silently o)| |]; destruct (1 <? v)%Z;
    eexists; reflexivity.
Qed.

Lemma confirm_unattended v rl o :
  interactive o = false ->
  exists before rest,
    trace (confirm v rl o)
    = before ++ EvSend (request rl o) (fail_silently o) :: rest
    /\ (forall e, In e before -> e = preview rl o).
Proof.
  intros I. run_confirm. rewrite I, orb_false_r.
  destruct (transport env (request rl o)) as [[detail|]|];
    [destruct (fail_silently o)| |]; destruct (1 <? v)%Z;
    simpl;
    first [ exists [preview rl o]; eexists; split; [reflexivity|];
            intros e [<-|[]]; reflexivity
          | exists []; eexists; split; [reflexivity|]; intros e [] ].
Qed.

Ltac each_event H :=
  repeat match type of H with
         | _ \/ _ => destruct H as [H|H]
         | False => destruct H
         end;
  try (rewrite <- H; clear H).

Ltac classify :=
  first
    [ left; reflexivity
    | right; left; split; [reflexivity | first [assumption | reflexivity]]
    | do 3 right; left; split;
      [reflexivity | intros; first [discriminate | eauto]]
    | do 4 right; reflexivity ].

(** Every event of lines 133-153, case by case. *)
Lemma confirm_events v rl o e :
  In e (trace (confirm v rl o)) ->
  e = preview rl o
  \/ (e = EvPrompt PROMPT /\ interactive o = true)
  \/ (e = EvStderr CANCELLED /\ interactive o = true
      /\ exists answer, raw_input env PROMPT = Got (Some answer)
                        /\ starts_with_n answer = true)
  \/ (e = EvSend (request rl o) (fail_silently o)
      /\ (interactive o = true ->
          exists answer, raw_input env PROMPT = Got (Some answer)
                         /\ starts_with_n answer = false))
  \/ e = EvStdout SENT.
Proof.
  destruct (interactive o) eqn:I.
  - destruct (raw_input env PROMPT) as [[answer|]|] eqn:R.
    + destruct (starts_with_n answer) eqn:D.
      * rewrite (confirm_declined v rl o answer I R D). simpl.
        intros [<-|[<-|[<-|[]]]]; eauto 10.
      * run_confirm.
        rewrite I, R, orb_true_r, declined_starts_with_n, D.
        destruct (transport env (request rl o)) as [[detail|]|];
          [destruct (fail_silently o)| |]; destruct (1 <? v)%Z;
          cbn [trace fst bind ret emit raise app In]; intros H;
          each_event H; classify.
    + rewrite (confirm_end_of_input v rl o I R). simpl.
      intros [<-|[<-|[]]]; eauto.
    + rewrite (confirm_interrupted v rl o I R). simpl.
      intros [<-|[<-|[]]]; eauto.
  - run_confirm. rewrite I, orb_false_r.
    destruct (transport env (request rl o)) as [[detail|]|];
      [destruct (fail_silently o)| |]; destruct (1 <? v)%Z;
      cbn [trace fst bind ret emit raise app In]; intros H;
      each_event H; classify.
Qed.

(** *** The whole command *)

Lemma handle_send_mail_bind fuel o :
  handle_send_mail fuel o
  = bind (prepare fuel o)
         (fun r => confirm (verbosity_of o) (fst r) (snd r)).
Proof. reflexivity. Qed.

Lemma handle_send_mail_prepared fuel o ev rl o' :
  prepare fuel o = (ev, Return (rl, o')) ->
  handle_send_mail fuel o
  = (ev ++ trace (confirm (verbosity_of o) rl o'),
     outcome (confirm (verbosity_of o) rl o')).
Proof.
  intros P. rewrite handle_send_mail_bind, P. simpl.
  now destruct (confirm (verbosity_of o) rl o').
Qed.

Lemma handle_send_mail_events fuel o e :
  In e (trace (handle_send_mail fuel o)) ->
  In e (trace (read_message env o))
  \/ exists ev rl o',
       prepare fuel o = (ev, Return (rl, o'))
       /\ In e (trace (confirm (verbosity_of o) rl o')).
Proof.
  rewrite handle_send_mail_bind, trace_bind, in_app_iff, prepare_trace.
  intros [H|H]; [now left|].
  destruct (outcome (prepare fuel o)) as [[rl o']| |] eqn:E;
    try contradiction.
  right. exists (trace (prepare fuel o)), rl, o'. split; [|exact H].
  rewrite <- E. apply surjective_M.
Qed.

Lemma handle_trace fuel o :
  trace (handle fuel o)
  = trace (handle_send_mail fuel o)
    ++ match outcome (handle_send_mail fuel o) with
       | Raise KeyboardInterrupt => [EvStderr CANCELLED]
       | _ => []
       end.
Proof.
  unfold Command.handle.
  destruct (handle_send_mail fuel o) as [ev [[]|[]|]]; simpl;
    now rewrite ?app_nil_r.
Qed.

Lemma handle_outcome fuel o :
  outcome (handle fuel o)
  = match outcome (handle_send_mail fuel o) with
    | Raise KeyboardInterrupt => Raise (SystemExit 1)
    | r => r
    end.
Proof.
  unfold Command.handle.
  now destruct (handle_send_mail fuel o) as [ev [[]|[]|]].
Qed.

(** Every event of an invocation is the body being read, one of the
    events of lines 133-153 on a finished request, or the
    cancellation notice of [handle]. *)
Lemma handle_events fuel o e :
  In e (trace (handle fuel o)) ->
  In e (trace (read_message env o))
  \/ (exists ev rl o',
        prepare fuel o = (ev, Return (rl, o'))
        /\ In e (trace (confirm (verbosity_of o) rl o')))
  \/ e = EvStderr CANCELLED.
Proof.
  rewrite handle_trace, in_app_iff. intros [H|H].
  - apply handle_send_mail_events in H. tauto.
  - right; right.
    destruct (outcome (handle_send_mail fuel o)) as [|[]|];
      simpl in H; intuition auto.
Qed.

(** A request reaches the Mailer only as the finished request. *)
Lemma handle_sends fuel o m silently :
  In (EvSend m silently) (trace (handle fuel o)) ->
  exists ev rl o',
    prepare fuel o = (ev, Return (rl, o'))
    /\ m = request rl o' /\ silently = fail_silently o'
    /\ (interactive o' = true ->
        exists answer, raw_input env PROMPT = Got (Some answer)
                       /\ starts_with_n answer = false).
Proof.
  intros H. apply handle_events in H as [H|[(ev & rl & o' & P & H)|H]].
  - apply read_message_events in H as [H|H]; discriminate.
  - exists ev, rl, o'. split; [assumption|].
    apply confirm_events in H
      as [H|[[H _]|[[H _]|[[H A]|H]]]]; try discriminate.
    inversion H; subst. auto.
  - discriminate.
Qed.

Lemma handle_prompts fuel o p :
  In (EvPrompt p) (trace (handle fuel o)) ->
  exists ev rl o',
    prepare fuel o = (ev, Return (rl, o')) /\ interactive o' = true.
Proof.
  intros H. apply handle_events in H as [H|[(ev & rl & o' & P & H)|H]].
  - apply read_message_events in H as [H|H]; discriminate.
  - exists ev, rl, o'. split; [assumption|].
    apply confirm_events in H
      as [H|[[_ I]|[[H _]|[[H _]|H]]]]; try discriminate. exact I.
  - discriminate.
Qed.

Lemma handle_prepared fuel o ev rl o' :
  prepare fuel o = (ev, Return (rl, o')) ->
  handle fuel o
  = match outcome (confirm (verbosity_of o) rl o') with
    | Raise KeyboardInterrupt =>
        (ev ++ trace (confirm (verbosity_of o) rl o') ++ [EvStderr CANCELLED],
         Raise (SystemExit 1))
    | r => (ev ++ trace (confirm (verbosity_of o) rl o'), r)
    end.
Proof.
  intros P. unfold Command.handle.
  rewrite (handle_send_mail_prepared _ _ _ _ _ P).
  destruct (outcome (confirm (verbosity_of o) rl o')) as [[]|[]|];
    try reflexivity.
  now rewrite <- app_assoc.
Qed.

(* ================================================================ *)
(** ** The claims about one invocation *)

(** C4. Whenever a request reaches the Mailer, every address of its
    [to], [cc] and [bcc] lists passed validation, and the addresses
    the operator gave (the entries that are not group names) are all
    there, in the order and number they were given, ahead of anything
    resolution added. *)
Theorem sent_addresses_valid_and_kept fuel o m silently :
  In (EvSend m silently) (trace (handle fuel o)) ->
  (Forall valid (em_to m)
   /\ Forall valid (or_empty (em_cc m))
   /\ Forall valid (or_empty (em_bcc m)))
  /\ (exists extra,
        filter is_address (em_to m)
        = filter is_address (recipient o) ++ extra)
  /\ (exists extra,
        filter is_address (or_empty (em_cc m))
        = filter is_address (given_copies (cc o)) ++ extra)
  /\ (exists extra,
        filter is_address (or_empty (em_bcc m))
        = filter is_address (given_copies (bcc o)) ++ extra).
Proof.
  intros H. apply handle_sends in H as (ev & rl & o' & P & -> & _).
  apply prepare_Return in P. destruct P. simpl. auto 10.
Qed.

(** C5, amended. When the message argument is the marker "-" and no
    regular file of that name exists, the body is all of standard
    input and the invocation never prompts, whatever [--no-input]
    said. *)
Theorem stdin_marker_reads_stdin_and_never_prompts fuel o text :
  message o = "-" ->
  isfile env "-" = false ->
  stdin_read env = Got text ->
  read_message env o
  = ([EvStdinRead], Return (set_message text (set_interactive false o)))
  /\ (forall p, ~ In (EvPrompt p) (trace (handle fuel o)))
  /\ (forall m silently,
        In (EvSend m silently) (trace (handle fuel o)) -> em_body m = text).
Proof.
  intros Hm Hf Hs.
  assert (R : read_message env o
              = ([EvStdinRead],
                 Return (set_message text (set_interactive false o)))).
  { unfold read_message. now rewrite Hm, Hf, Hs. }
  split; [exact R|]. split.
  - intros p H. apply handle_prompts in H as (ev & rl & o' & P & I).
    apply prepare_Return in P. destruct P as [(o1 & R1 & _ & I1)].
    rewrite R in R1. inversion R1; subst. rewrite I1 in I. discriminate.
  - intros m silently H.
    apply handle_sends in H as (ev & rl & o' & P & -> & _).
    apply prepare_Return in P. destruct P as [(o1 & R1 & M1 & _)].
    rewrite R in R1. inversion R1; subst. exact M1.
Qed.

(** C6. The request that reaches the Mailer carries the [--from]
    value when one was given and the configured default sender
    otherwise; its subject is the given subject with the configured
    prefix put directly in front of it, or the given subject alone
    under [--noprefix]. *)
Theorem sent_from_and_subject fuel o m silently :
  In (EvSend m silently) (trace (handle fuel o)) ->
  em_from_email m
  = Some (match from_email o with
          | Some given => given
          | None => DEFAULT_FROM_EMAIL settings
          end)
  /\ em_subject m
     = (if noprefix o then subject o
        else EMAIL_SUBJECT_PREFIX settings ++ subject o)%string.
Proof.
  intros H. apply handle_sends in H as (ev & rl & o' & P & -> & _).
  apply prepare_Return in P. destruct P. simpl. split; [assumption|].
  rewrite prep_subject0. now destruct (noprefix o).
Qed.

(** C7, amended. The preview is one newline followed by the layout
    of the specification: the text handed to the output stream is
    that, and an invocation that prompts writes it just before the
    prompt. *)
Theorem preview_is_newline_then_layout fuel o ev rl o' :
  prepare fuel o = (ev, Return (rl, o')) ->
  interactive o' = true ->
  confirm_text rl o'
  = ret (Py.nl ++ spec_preview (subject o') (str (from_email o')) rl
                               (or_empty (cc o')) (message o'))%string
  /\ exists rest,
       trace (handle fuel o)
       = ev ++ EvStdout
                 (Py.nl ++ spec_preview (subject o') (str (from_email o'))
                                        rl (or_empty (cc o')) (message o'))
            :: EvPrompt PROMPT :: rest.
Proof.
  intros P I. split; [apply confirm_text_layout|].
  rewrite (handle_prepared _ _ _ _ _ P).
  destruct (raw_input env PROMPT) as [[answer|]|] eqn:R.
  - destruct (starts_with_n answer) eqn:D.
    + rewrite (confirm_declined _ rl o' answer I R D).
      eexists. reflexivity.
    + destruct (confirm_accepted (verbosity_of o) rl o' answer I R D)
        as [rest T].
      destruct (outcome (confirm (verbosity_of o) rl o')) as [[]|[]|];
        rewrite T; eexists; simpl; reflexivity.
  - rewrite (confirm_end_of_input _ rl o' I R). eexists. reflexivity.
  - rewrite (confirm_interrupted _ rl o' I R). eexists. reflexivity.
Qed.

(** A decline at the prompt, or an interrupt while the command waits
    at the prompt or for standard input, comes before any send. *)
Lemma cancelled_waiting_exits_1 fuel o :
  cancelled_waiting env (trace (handle fuel o)) ->
  outcome (handle fuel o) = Raise (SystemExit 1)
  /\ (exists before,
        trace (handle fuel o) = before ++ [EvStderr CANCELLED])
  /\ (forall m silently, ~ In (EvSend m silently) (trace (handle fuel o))).
Proof.
  unfold cancelled_waiting. intros [[Hp Ha]|[Hr Hi]].
  - apply handle_prompts in Hp as (ev & rl & o' & P & I).
    assert (Ev : forall m silently, ~ In (EvSend m silently) ev).
    { intros m silently H.
      pose proof (prepare_trace fuel o) as T. rewrite P in T. simpl in T.
      rewrite T in H. apply read_message_events in H as [H|H];
        discriminate. }
    rewrite (handle_prepared _ _ _ _ _ P).
    destruct Ha as [(answer & R & D)|R].
    + rewrite declined_starts_with_n in D.
      rewrite (confirm_declined _ rl o' answer I R D). simpl.
      split; [reflexivity|]. split.
      * exists (ev ++ [preview rl o'; EvPrompt PROMPT]).
        now rewrite <- app_assoc.
      * intros m silently H. apply in_app_iff in H as [H|H].
        -- exact (Ev _ _ H).
        -- simpl in H. intuition discriminate.
    + rewrite (confirm_interrupted _ rl o' I R). simpl.
      split; [reflexivity|]. split.
      * exists (ev ++ [preview rl o'; EvPrompt PROMPT]).
        now rewrite <- app_assoc.
      * intros m silently H. apply in_app_iff in H as [H|H].
        -- exact (Ev _ _ H).
        -- simpl in H. intuition discriminate.
  - assert (R : read_message env o = ([EvStdinRead], Raise KeyboardInterrupt)).
    { apply handle_events in Hr as [H|[(ev & rl & o' & P & H)|H]].
      - revert H. unfold read_message.
        destruct (isfile env (message o)).
        + destruct (file_read env (message o)) as [text|exc].
          * simpl. intuition discriminate.
          * destruct (format_read_error (message o) exc) as [msg ->].
            simpl. intuition discriminate.
        + destruct (String.eqb (message o) "-"); [|simpl; tauto].
          now rewrite Hi.
      - apply confirm_events in H
          as [H|[[H _]|[[H _]|[[H _]|H]]]]; discriminate.
      - discriminate. }
    assert (E : handle fuel o
                = ([EvStdinRead; EvStderr CANCELLED], Raise (SystemExit 1))).
    { unfold Command.handle, Command.handle_send_mail, Command.prepare.
      now rewrite R. }
    rewrite E. simpl. split; [reflexivity|]. split.
    + now exists [EvStdinRead].
    + intros m silently H. intuition discriminate.
Qed.

(** C9. A regular file named "-" in the working directory wins over
    the standard-input marker: standard input is not read, the file
    is, and when it can be read its contents are the body and the
    [interactive] setting stays as parsed. *)
Theorem dash_file_wins_over_stdin fuel o :
  message o = "-" ->
  isfile env "-" = true ->
  ~ In EvStdinRead (trace (handle fuel o))
  /\ In (EvOpenRead "-") (trace (handle fuel o))
  /\ (forall text,
        file_read env "-" = inl text ->
        read_message env o = ([EvOpenRead "-"], Return (set_message text o))
        /\ forall ev rl o',
             prepare fuel o = (ev, Return (rl, o')) ->
             message o' = text /\ interactive o' = interactive o).
Proof.
  intros Hm Hf.
  assert (T : trace (read_message env o) = [EvOpenRead "-"]).
  { unfold read_message. rewrite Hm, Hf.
    destruct (file_read env "-") as [text|exc]; [reflexivity|].
    now destruct (format_read_error "-" exc) as [msg ->]. }
  split; [|split].
  - intros H. apply handle_events in H as [H|[(ev & rl & o' & P & H)|H]].
    + rewrite T in H. simpl in H. intuition discriminate.
    + apply confirm_events in H
        as [H|[[H _]|[[H _]|[[H _]|H]]]]; discriminate.
    + discriminate.
  - rewrite handle_trace, handle_send_mail_bind, trace_bind, prepare_trace, T.
    simpl. auto.
  - intros text Hr.
    assert (R : read_message env o
                = ([EvOpenRead "-"], Return (set_message text o))).
    { unfold read_message. now rewrite Hm, Hf, Hr. }
    split; [exact R|]. intros ev rl o' P.
    apply prepare_Return in P. destruct P as [(o1 & R1 & M1 & I1)].
    rewrite R in R1. inversion R1; subst. now rewrite M1, I1.
Qed.

(** C10. The confirmation is default-yes. The test the command makes
    on a response (lowercase it, see whether it starts with "n") holds
    exactly of the responses that start with "n" or "N"; on such a
    response the invocation cancels, on any other (the empty one
    included) the request goes to the Mailer. *)
Theorem confirmation_is_default_yes fuel o ev rl o' answer :
  prepare fuel o = (ev, Return (rl, o')) ->
  interactive o' = true ->
  raw_input env PROMPT = Got (Some answer) ->
  Py.startswith (Py.lower answer) "n" = starts_with_n answer
  /\ if starts_with_n answer
     then handle fuel o
          = (ev ++ [preview rl o'; EvPrompt PROMPT; EvStderr CANCELLED],
             Raise (SystemExit 1))
     else In (EvSend (request rl o') (fail_silently o'))
             (trace (handle fuel o)).
Proof.
  intros P I R. split; [apply declined_starts_with_n|].
  destruct (starts_with_n answer) eqn:D.
  - rewrite (handle_prepared _ _ _ _ _ P).
    now rewrite (confirm_declined _ rl o' answer I R D).
  - destruct (confirm_accepted (verbosity_of o) rl o' answer I R D)
      as [rest T].
    rewrite handle_trace, (handle_send_mail_prepared _ _ _ _ _ P). simpl.
    rewrite T. rewrite !in_app_iff. left; right. simpl. auto.
Qed.

End Run.

(* ================================================================== *)
(** ** The two places where the command misses its own intent *)

(** C1. Two group names next to each other: removing the first moves
    the second under the iterator's back, so it is never looked at.
    The list keeps "MANAGERS", only the administrators are appended,
    and the command then rejects "MANAGERS" as an address. *)
Theorem adjacent_group_names_one_left_behind (fuel : nat) :
  resolve_groups Sample.settings (4 + fuel) 0 ["ADMINS"; "MANAGERS"]
  = ([], Return ["MANAGERS"; "root@x.com"; "ops@x.com"])
  /\ handle Sample.validate_email Sample.settings (Sample.env "y") (4 + fuel)
            (add_arguments (Sample.command_line ["ADMINS"; "MANAGERS"]))
     = ([], Raise (CommandError (invalid_address_message "MANAGERS"))).
Proof. split; reflexivity. Qed.

(** C2. The flag [-r/--raise-error] is stored as [fail_silently]: it
    is false without the flag and true with it.  With a backend that
    fails, the invocation without the flag raises the failure and the
    invocation with the flag swallows it. *)
Theorem raise_error_flag_silences_failures :
  (forall cl, fail_silently (add_arguments cl) = cl_raise_error cl)
  /\ outcome (handle Sample.validate_email Sample.settings
                     (Sample.env_failing "y") 10
                     (add_arguments (Sample.command_line ["a@x.com"])))
     = Raise (MailError "Connection refused")
  /\ outcome (handle Sample.validate_email Sample.settings
                     (Sample.env_failing "y") 10
                     (add_arguments
                        (Sample.raising (Sample.command_line ["a@x.com"]))))
     = Return tt.
Proof.
  split; [|split; reflexivity].
  intros cl. simpl. unfold store_true. now destruct (cl_raise_error cl).
Qed.

(* ================================================================== *)
(** ** The claims on concrete invocations *)

Lemma sent_addresses_valid_and_kept_witness :
  In (EvSend Sample.mixed_request false)
     (trace (handle Sample.validate_email Sample.settings (Sample.env "y") 20
                    (add_arguments Sample.mixed)))
  /\ Forall (fun r => Sample.validate_email r = true)
            ["a@x.com"; "a@x.com"; "root@x.com"; "ops@x.com"]
  /\ exists extra,
       ["a@x.com"; "a@x.com"; "root@x.com"; "ops@x.com"]
       = ["a@x.com"; "a@x.com"] ++ extra.
Proof.
  assert (H : In (EvSend Sample.mixed_request false)
                 (trace (handle Sample.validate_email Sample.settings
                                (Sample.env "y") 20
                                (add_arguments Sample.mixed))))
    by (vm_compute; auto).
  split; [exact H|].
  destruct (sent_addresses_valid_and_kept
              Sample.validate_email Sample.settings (Sample.env "y") 20
              (add_arguments Sample.mixed) Sample.mixed_request false H)
    as [[V _] [K _]].
  split; [exact V | exact K].
Defined.

Lemma stdin_marker_reads_stdin_and_never_prompts_witness :
  message (add_arguments (Sample.saying "-" (Sample.command_line ["a@x.com"])))
  = "-"
  /\ isfile (Sample.env "y") "-" = false
  /\ stdin_read (Sample.env "y") = Got "from stdin"
  /\ read_message (Sample.env "y")
       (add_arguments (Sample.saying "-" (Sample.command_line ["a@x.com"])))
     = ([EvStdinRead],
        Return (set_message "from stdin"
                  (set_interactive false
                     (add_arguments
                        (Sample.saying "-" (Sample.command_line ["a@x.com"]))))))
  /\ ~ In (EvPrompt PROMPT)
          (trace (handle Sample.validate_email Sample.settings (Sample.env "y")
                         20
                         (add_arguments
                            (Sample.saying "-"
                               (Sample.command_line ["a@x.com"]))))).
Proof.
  pose proof (stdin_marker_reads_stdin_and_never_prompts
                Sample.validate_email Sample.settings (Sample.env "y") 20
                (add_arguments
                   (Sample.saying "-" (Sample.command_line ["a@x.com"])))
                "from stdin" eq_refl eq_refl eq_refl) as [R [N _]].
  do 3 (split; [reflexivity|]). split; [exact R | exact (N PROMPT)].
Defined.

(** C5 as stated fails: with a regular file named "-" in the working
    directory the marker does not make the command read standard
    input. *)
Lemma stdin_marker_loses_to_a_file_named_dash :
  ~ (forall validate_email settings env fuel o text,
        message o = "-" ->
        stdin_read env = Got text ->
        read_message env o
        = ([EvStdinRead], Return (set_message text (set_interactive false o)))
        /\ (forall p, ~ In (EvPrompt p)
                        (trace (handle validate_email settings env fuel o)))
        /\ (forall m silently,
              In (EvSend m silently)
                 (trace (handle validate_email settings env fuel o)) ->
              em_body m = text)).
Proof.
  intros H.
  destruct (H Sample.validate_email Sample.settings
              (Sample.env_dash_file "y") 20
              (add_arguments
                 (Sample.saying "-" (Sample.command_line ["a@x.com"])))
              "from stdin" eq_refl eq_refl) as [R _].
  vm_compute in R. discriminate R.
Qed.

Lemma sent_from_and_subject_witness :
  In (EvSend Sample.mixed_request false)
     (trace (handle Sample.validate_email Sample.settings (Sample.env "y") 20
                    (add_arguments Sample.mixed)))
  /\ em_from_email Sample.mixed_request = Some "webmaster@localhost"
  /\ em_subject Sample.mixed_request = "[Django] Hello".
Proof.
  assert (H : In (EvSend Sample.mixed_request false)
                 (trace (handle Sample.validate_email Sample.settings
                                (Sample.env "y") 20
                                (add_arguments Sample.mixed))))
    by (vm_compute; auto).
  split; [exact H|].
  exact (sent_from_and_subject
           Sample.validate_email Sample.settings (Sample.env "y") 20
           (add_arguments Sample.mixed) Sample.mixed_request false H).
Defined.

Lemma preview_is_newline_then_layout_witness :
  prepare Sample.validate_email Sample.settings (Sample.env "y") 20
          (add_arguments (Sample.command_line ["a@x.com"]))
  = ([], Return (["a@x.com"], Sample.finished ["a@x.com"]))
  /\ interactive (Sample.finished ["a@x.com"]) = true
  /\ exists rest,
       trace (handle Sample.validate_email Sample.settings (Sample.env "y") 20
                     (add_arguments (Sample.command_line ["a@x.com"])))
       = EvStdout
           (Py.nl ++ spec_preview "[Django] Hello" "webmaster@localhost"
                                  ["a@x.com"] [] "Hi there")
         :: EvPrompt PROMPT :: rest.
Proof.
  split; [reflexivity|]. split; [reflexivity|].
  exact (proj2 (preview_is_newline_then_layout
                  Sample.validate_email Sample.settings (Sample.env "y") 20
                  (add_arguments (Sample.command_line ["a@x.com"]))
                  [] ["a@x.com"] (Sample.finished ["a@x.com"])
                  eq_refl eq_refl)).
Defined.

(** C7 as stated fails: the text the command writes does not start with
    the opening banner. *)
Lemma preview_does_not_start_with_the_banner :
  ~ (forall validate_email settings env fuel o ev rl o',
        prepare validate_email settings env fuel o = (ev, Return (rl, o')) ->
        interactive o' = true ->
        confirm_text rl o'
        = ret (spec_preview (subject o') (str (from_email o')) rl
                            (or_empty (cc o')) (message o'))
        /\ exists rest,
             trace (handle validate_email settings env fuel o)
             = ev ++ EvStdout
                       (spec_preview (subject o') (str (from_email o')) rl
                                     (or_empty (cc o')) (message o'))
                  :: EvPrompt PROMPT :: rest).
Proof.
  intros H.
  destruct (H Sample.validate_email Sample.settings (Sample.env "y") 20
              (add_arguments (Sample.command_line ["a@x.com"]))
              [] ["a@x.com"] (Sample.finished ["a@x.com"])
              eq_refl eq_refl) as [C _].
  vm_compute in C. discriminate C.
Qed.

Lemma dash_file_wins_over_stdin_witness :
  message (add_arguments (Sample.saying "-" (Sample.command_line ["a@x.com"])))
  = "-"
  /\ isfile (Sample.env_dash_file "y") "-" = true
  /\ ~ In EvStdinRead
          (trace (handle Sample.validate_email Sample.settings
                         (Sample.env_dash_file "y") 20
                         (add_arguments
                            (Sample.saying "-"
                               (Sample.command_line ["a@x.com"])))))
  /\ read_message (Sample.env_dash_file "y")
       (add_arguments (Sample.saying "-" (Sample.command_line ["a@x.com"])))
     = ([EvOpenRead "-"],
        Return (set_message "from the file"
                  (add_arguments
                     (Sample.saying "-" (Sample.command_line ["a@x.com"]))))).
Proof.
  destruct (dash_file_wins_over_stdin
              Sample.validate_email Sample.settings (Sample.env_dash_file "y")
              20
              (add_arguments
                 (Sample.saying "-" (Sample.command_line ["a@x.com"])))
              eq_refl eq_refl) as [N [_ F]].
  do 2 (split; [reflexivity|]). split; [exact N|].
  exact (proj1 (F "from the file" eq_refl)).
Defined.

Lemma confirmation_is_default_yes_witness :
  prepare Sample.validate_email Sample.settings (Sample.env "") 20
          (add_arguments (Sample.command_line ["a@x.com"]))
  = ([], Return (["a@x.com"], Sample.finished ["a@x.com"]))
  /\ interactive (Sample.finished ["a@x.com"]) = true
  /\ raw_input (Sample.env "") PROMPT = Got (Some "")
  /\ In (EvSend (request ["a@x.com"] (Sample.finished ["a@x.com"])) false)
        (trace (handle Sample.validate_email Sample.settings (Sample.env "") 20
                       (add_arguments (Sample.command_line ["a@x.com"])))).
Proof.
  do 3 (split; [reflexivity|]).
  exact (proj2 (confirmation_is_default_yes
                  Sample.validate_email Sample.settings (Sample.env "") 20
                  (add_arguments (Sample.command_line ["a@x.com"]))
                  [] ["a@x.com"] (Sample.finished ["a@x.com"]) ""
                  eq_refl eq_refl eq_refl)).
Defined.


(* ================================================================== *)
(** ** Lines 133-153 in closed form *)

Section Delivery.

Variable validate_email : string -> bool.
Variable settings : Settings.
Variable env : Env.

Local Abbreviation confirm := (confirm_and_send env).
Local Abbreviation prepare := (prepare validate_email settings env).
Local Abbreviation handle_send_mail :=
  (handle_send_mail validate_email settings env).
Local Abbreviation handle := (handle validate_email settings env).

Lemma confirm_closed_form v rl o :
  confirm v rl o
  = match answer_of env o with
    | Interrupted => (shown v rl o, Raise KeyboardInterrupt)
    | Got None => (shown v rl o, Raise EOFError)
    | Got (Some answer) =>
        if interactive o && starts_with_n answer
        then (shown v rl o ++ [EvStderr CANCELLED], Raise (SystemExit 1))
        else
          match transport env (request rl o) with
          | Got (Some detail) =>
              if fail_silently o
              then (shown v rl o
                    ++ EvSend (request rl o) true :: sent_note v, Return tt)
              else (shown v rl o ++ [EvSend (request rl o) false],
                    Raise (MailError detail))
          | Got None =>
              (shown v rl o
               ++ EvSend (request rl o) (fail_silently o) :: sent_note v,
               Return tt)
          | Interrupted =>
              (shown v rl o ++ [EvSend (request rl o) (fail_silently o)],
               Raise KeyboardInterrupt)
          end
    end.
Proof.
  unfold confirm_and_send, send, answer_of, shown, sent_note, preview.
  rewrite confirm_text_layout.
  destruct (interactive o) eqn:I.
  - rewrite orb_true_r.
    destruct (raw_input env PROMPT) as [[answer|]|]; try reflexivity.
    rewrite declined_starts_with_n.
    destruct (starts_with_n answer); [reflexivity|].
    destruct (transport env (request rl o)) as [[detail|]|];
      [destruct (fail_silently o)| |]; destruct (1 <? v)%Z; reflexivity.
  - rewrite orb_false_r.
    destruct (transport env (request rl o)) as [[detail|]|];
      [destruct (fail_silently o)| |]; destruct (1 <? v)%Z; reflexivity.
Qed.

Lemma read_events_only (o : Options) :
  Forall (fun e => is_read e = true) (trace (read_message env o)).
Proof.
  apply Forall_forall. intros e H.
  destruct (read_message_events validate_email env o e H) as [E|E];
    rewrite E; reflexivity.
Qed.

(** When lines 91-131 do not finish, nothing else runs. *)
Lemma handle_send_mail_unprepared fuel o :
  (forall r, outcome (prepare fuel o) <> Return r) ->
  trace (handle_send_mail fuel o) = trace (read_message env o)
  /\ outcome (handle_send_mail fuel o)
     = match outcome (prepare fuel o) with
       | Return _ => OutOfFuel
       | Raise e => Raise e
       | OutOfFuel => OutOfFuel
       end.
Proof.
  intros N. rewrite handle_send_mail_bind, trace_bind, outcome_bind.
  rewrite prepare_trace.
  destruct (outcome (prepare fuel o)) as [r| |].
  - now destruct (N r).
  - now rewrite app_nil_r.
  - now rewrite app_nil_r.
Qed.

Lemma bind_Raise_inv {A B} (m : M A) (k : A -> M B) ev e :
  bind m k = (ev, Raise e) ->
  m = (ev, Raise e)
  \/ exists ev1 a ev2,
       m = (ev1, Return a) /\ k a = (ev2, Raise e) /\ ev = ev1 ++ ev2.
Proof.
  destruct m as [ev1 [a| e1|]]; simpl.
  - destruct (k a) as [ev2 r] eqn:E. intros H; inversion H; subst.
    right. now exists ev1, a, ev2.
  - intros H; inversion H; subst. now left.
  - discriminate.
Qed.

(** *** What each step can raise *)

Lemma format_read_error_text (path exc : string) :
  format ("Error reading message file " ++ Py.dquote ++ "{}"
          ++ Py.dquote ++ ": {}")%string [path; exc] []
  = ret (read_error_message path exc).
Proof.
  unfold format, Py.format, read_error_message. simpl.
  now rewrite append_empty_r.
Qed.

Lemma read_message_Raise o ev e :
  read_message env o = (ev, Raise e) ->
  (e = KeyboardInterrupt /\ ev = [EvStdinRead]
   /\ isfile env (message o) = false /\ message o = "-"
   /\ stdin_read env = Interrupted)
  \/ (exists exc,
        e = CommandError (read_error_message (message o) exc)
        /\ ev = [EvOpenRead (message o)]
        /\ isfile env (message o) = true
        /\ file_read env (message o) = inr exc).
Proof.
  unfold read_message.
  destruct (isfile env (message o)) eqn:F.
  - destruct (file_read env (message o)) as [text|exc] eqn:R.
    + discriminate.
    + rewrite format_read_error_text. intros H. right. exists exc.
      inversion H; subst. auto.
  - destruct (String.eqb (message o) "-") eqn:D; [|discriminate].
    apply String.eqb_eq in D.
    destruct (stdin_read env) eqn:S; [discriminate|].
    intros H. inversion H; subst. left. auto.
Qed.

Lemma split_copy_Raise v ev e :
  split_copy v = (ev, Raise e) ->
  e = PyError "AttributeError" /\ exists l, v = CList l.
Proof.
  unfold split_copy. destruct v as [|s|l]; [discriminate| |].
  - destruct (truthy (CStr s)); discriminate.
  - destruct (truthy (CList l)); [|discriminate].
    intros H; inversion H; subst. eauto.
Qed.

Lemma validate_all_Raise lst ev e :
  validate_all validate_email lst = (ev, Raise e) ->
  exists pre bad post,
    lst = pre ++ bad :: post
    /\ Forall (fun r => validate_email r = true) pre
    /\ validate_email bad = false
    /\ e = CommandError (invalid_address_message bad).
Proof.
  revert ev e. induction lst as [|r lst IH]; simpl; intros ev e;
    [discriminate|].
  destruct (validate_email r) eqn:V.
  - intros H. destruct (IH _ _ H) as (pre & bad & post & -> & P & B & E).
    exists (r :: pre), bad, post. auto.
  - intros H. inversion H; subst. exists [], r, lst. auto.
Qed.

Lemma process_list_Raise fuel lst ev e :
  process_list validate_email settings fuel lst = (ev, Raise e) ->
  exists bad,
    validate_email bad = false
    /\ e = CommandError (invalid_address_message bad).
Proof.
  unfold process_list. destruct lst as [|x lst]; [discriminate|].
  intros H. apply bind_Raise_inv in H as [H|(ev1 & l1 & ev2 & R & H & _)].
  - pose proof (resolve_groups_no_raise settings fuel 0 (x :: lst) e) as N.
    rewrite H in N. now destruct N.
  - apply bind_Raise_inv in H as [H|(ev3 & [] & ev4 & V & H & _)].
    + apply validate_all_Raise in H as (pre & bad & post & _ & _ & B & E).
      eauto.
    + discriminate.
Qed.

Lemma process_value_Raise fuel v ev e :
  process_value validate_email settings fuel v = (ev, Raise e) ->
  exists bad,
    validate_email bad = false
    /\ e = CommandError (invalid_address_message bad).
Proof.
  unfold process_value. destruct (truthy v) eqn:T; simpl; [|discriminate].
  destruct v as [|s|l]; [discriminate T| |].
  - rewrite chars_no_group. intros H.
    apply bind_Raise_inv in H as [H|(ev1 & [] & ev2 & V & H & _)].
    + apply validate_all_Raise in H as (pre & bad & post & _ & _ & B & E).
      eauto.
    + discriminate.
  - intros H. apply bind_Raise_inv in H as [H|(ev1 & l1 & ev2 & P & H & _)].
    + eapply process_list_Raise; eauto.
    + discriminate.
Qed.

(** How lines 91-131 can fail: the operator's interrupt while standard
    input is read, a [CommandError] for the message file or for an
    address, or a value under [bcc]/[cc] that is a list already. *)
Lemma prepare_Raise fuel o ev e :
  prepare fuel o = (ev, Raise e) ->
  (e = KeyboardInterrupt /\ ev = [EvStdinRead]
   /\ stdin_read env = Interrupted)
  \/ (exists exc,
        e = CommandError (read_error_message (message o) exc)
        /\ ev = [EvOpenRead (message o)]
        /\ isfile env (message o) = true
        /\ file_read env (message o) = inr exc)
  \/ (exists bad,
        validate_email bad = false
        /\ e = CommandError (invalid_address_message bad))
  \/ (e = PyError "AttributeError"
      /\ exists l, bcc o = CList l \/ cc o = CList l).
Proof.
  unfold Command.prepare. intros H.
  apply bind_Raise_inv in H as [H|(ev1 & o1 & ? & R & H & _)].
  { apply read_message_Raise in H as [(-> & -> & _ & _ & S)|H]; auto. }
  pose proof (read_message_Return _ _ _ _ R) as E1.
  assert (B : bcc o1 = bcc o) by (rewrite E1; reflexivity).
  assert (C : cc o1 = cc o) by (rewrite E1; reflexivity).
  apply bind_Raise_inv in H as [H|(? & b & ? & Sb & H & _)].
  { apply split_copy_Raise in H as [-> [l L]]. rewrite B in L. eauto 10. }
  apply bind_Raise_inv in H as [H|(? & c & ? & Sc & H & _)].
  { apply split_copy_Raise in H as [-> [l L]]. simpl in L. rewrite C in L.
    eauto 10. }
  apply bind_Raise_inv in H as [H|(? & rl & ? & Pl & H & _)].
  { apply process_list_Raise in H. auto. }
  apply bind_Raise_inv in H as [H|(? & b' & ? & Pb & H & _)].
  { apply process_value_Raise in H. auto. }
  apply bind_Raise_inv in H as [H|(? & c' & ? & Pc & H & _)].
  { apply process_value_Raise in H. auto. }
  rewrite format_pair, bind_ret in H. discriminate.
Qed.

(** *** The whole command in closed form *)

Lemma handle_closed_form fuel o ev rl o' :
  prepare fuel o = (ev, Return (rl, o')) ->
  handle fuel o
  = match answer_of env o' with
    | Interrupted =>
        (ev ++ shown (verbosity_of o) rl o' ++ [EvStderr CANCELLED],
         Raise (SystemExit 1))
    | Got None => (ev ++ shown (verbosity_of o) rl o', Raise EOFError)
    | Got (Some answer) =>
        if interactive o' && starts_with_n answer
        then (ev ++ shown (verbosity_of o) rl o' ++ [EvStderr CANCELLED],
              Raise (SystemExit 1))
        else
          match transport env (request rl o') with
          | Got (Some detail) =>
              if fail_silently o'
              then (ev ++ shown (verbosity_of o) rl o'
                       ++ EvSend (request rl o') true
                       :: sent_note (verbosity_of o), Return tt)
              else (ev ++ shown (verbosity_of o) rl o'
                       ++ [EvSend (request rl o') false],
                    Raise (MailError detail))
          | Got None =>
              (ev ++ shown (verbosity_of o) rl o'
                  ++ EvSend (request rl o') (fail_silently o')
                  :: sent_note (verbosity_of o), Return tt)
          | Interrupted =>
              (ev ++ shown (verbosity_of o) rl o'
                  ++ [EvSend (request rl o') (fail_silently o');
                      EvStderr CANCELLED],
               Raise (SystemExit 1))
          end
    end.
Proof.
  intros P. rewrite (handle_prepared _ _ _ _ _ _ _ _ P).
  rewrite confirm_closed_form.
  destruct (answer_of env o') as [[answer|]|]; try reflexivity.
  destruct (interactive o' && starts_with_n answer); [reflexivity|].
  destruct (transport env (request rl o')) as [[detail|]|];
    [destruct (fail_silently o')| |]; try reflexivity.
  simpl. now rewrite <- app_assoc.
Qed.

Lemma handle_unprepared fuel o ev e :
  prepare fuel o = (ev, Raise e) ->
  handle fuel o
  = match e with
    | KeyboardInterrupt => (ev ++ [EvStderr CANCELLED], Raise (SystemExit 1))
    | _ => (ev, Raise e)
    end.
Proof.
  intros P. unfold Command.handle, Command.handle_send_mail.
  rewrite P. simpl. now destruct e.
Qed.

Lemma handle_out_of_fuel fuel o ev :
  prepare fuel o = (ev, OutOfFuel) -> handle fuel o = (ev, OutOfFuel).
Proof.
  intros P. unfold Command.handle, Command.handle_send_mail.
  now rewrite P.
Qed.

Lemma prepare_read_trace fuel o ev r :
  prepare fuel o = (ev, r) -> ev = trace (read_message env o).
Proof.
  intros P. rewrite <- (prepare_trace validate_email settings env fuel o).
  now rewrite P.
Qed.

(** *** Events by kind *)

Lemma read_message_trace o :
  trace (read_message env o)
  = if isfile env (message o) then [EvOpenRead (message o)]
    else if String.eqb (message o) "-" then [EvStdinRead] else [].
Proof.
  unfold read_message.
  destruct (isfile env (message o)).
  - destruct (file_read env (message o)) as [text|exc]; [reflexivity|].
    now rewrite format_read_error_text.
  - destruct (String.eqb (message o) "-"); [|reflexivity].
    now destruct (stdin_read env).
Qed.

Lemma reads_hold_no_send (l : list Event) :
  Forall (fun e => is_read e = true) l -> filter is_send l = [].
Proof.
  induction 1 as [|e l He _ IH]; [reflexivity|]. simpl.
  destruct e; try discriminate; exact IH.
Qed.

Lemma reads_are_reads (l : list Event) :
  Forall (fun e => is_read e = true) l -> filter is_read l = l.
Proof.
  induction 1 as [|e l He _ IH]; [reflexivity|]. simpl.
  now rewrite He, IH.
Qed.

Lemma shown_no_send v rl o : filter is_send (shown v rl o) = [].
Proof.
  unfold shown, preview. destruct (interactive o); [reflexivity|].
  now destruct (1 <? v)%Z.
Qed.

Lemma shown_no_read v rl o : filter is_read (shown v rl o) = [].
Proof.
  unfold shown, preview. destruct (interactive o); [reflexivity|].
  now destruct (1 <? v)%Z.
Qed.

Lemma sent_note_no_send v : filter is_send (sent_note v) = [].
Proof. unfold sent_note. now destruct (1 <? v)%Z. Qed.

Lemma sent_note_no_read v : filter is_read (sent_note v) = [].
Proof. unfold sent_note. now destruct (1 <? v)%Z. Qed.

Lemma in_shown v rl o e :
  In e (shown v rl o) ->
  e = preview rl o \/ (e = EvPrompt PROMPT /\ interactive o = true).
Proof.
  unfold shown. destruct (interactive o).
  - simpl. intuition auto.
  - destruct (1 <? v)%Z; simpl; intuition auto.
Qed.

Lemma in_sent_note v e :
  In e (sent_note v) -> e = EvStdout SENT /\ (1 < v)%Z.
Proof.
  unfold sent_note. destruct (1 <? v)%Z eqn:V; simpl; [|tauto].
  apply Z.ltb_lt in V. intuition auto.
Qed.

Lemma preview_is_not_the_sent_note rl o : preview rl o <> EvStdout SENT.
Proof. unfold preview, SENT. simpl. discriminate. Qed.

Lemma in_reads (l : list Event) e :
  Forall (fun e => is_read e = true) l -> In e l -> is_read e = true.
Proof. intros F H. rewrite Forall_forall in F. auto. Qed.

Lemma prepared_reads fuel o ev r :
  prepare fuel o = (ev, r) -> Forall (fun e => is_read e = true) ev.
Proof.
  intros P. rewrite (prepare_read_trace _ _ _ _ P). apply read_events_only.
Qed.

Ltac closed_form P :=
  rewrite (handle_closed_form _ _ _ _ _ P);
  let A := fresh "A" in
  let D := fresh "D" in
  let T := fresh "T" in
  let FS := fresh "FS" in
  destruct (answer_of env _) as [[?answer|]|] eqn:A;
  [ destruct (interactive _ && starts_with_n _) eqn:D;
    [ | destruct (transport env _) as [[?detail|]|] eqn:T;
        [ destruct (fail_silently _) eqn:FS | | ] ]
  | | ].

(* ================================================================== *)
(** ** More of what an invocation does *)

(** X1. An invocation hands at most one request to the Mailer. *)
Theorem sends_at_most_once fuel o :
  List.length (filter is_send (trace (handle fuel o))) <= 1.
Proof.
  destruct (prepare fuel o) as [ev [[rl o']|e|]] eqn:P;
    pose proof (reads_hold_no_send _ (prepared_reads _ _ _ _ P)) as R.
  - closed_form P; unfold trace; simpl fst;
      rewrite ?filter_app; simpl;
      rewrite ?filter_app, ?R, ?shown_no_send, ?sent_note_no_send; simpl; lia.
  - rewrite (handle_unprepared _ _ _ _ P).
    destruct e; unfold trace; simpl fst; rewrite ?filter_app, R; simpl; lia.
  - rewrite (handle_out_of_fuel _ _ _ P). unfold trace; simpl fst.
    rewrite R. simpl. lia.
Qed.

(** X2. The body source is consulted once, first thing, and only one
    of the two: the reads of an invocation are the opening of the
    message file when the argument names a regular file, else the read
    of standard input when the argument is "-", else none. *)
Theorem reads_the_body_source_once fuel o :
  filter is_read (trace (handle fuel o))
  = if isfile env (message o) then [EvOpenRead (message o)]
    else if String.eqb (message o) "-" then [EvStdinRead] else [].
Proof.
  rewrite <- read_message_trace.
  destruct (prepare fuel o) as [ev [[rl o']|e|]] eqn:P;
    pose proof (reads_are_reads _ (prepared_reads _ _ _ _ P)) as R;
    rewrite <- (prepare_read_trace _ _ _ _ P).
  - closed_form P; unfold trace; simpl fst;
      rewrite ?filter_app; simpl;
      rewrite ?filter_app, ?R, ?shown_no_read, ?sent_note_no_read; simpl;
      now rewrite ?app_nil_r.
  - rewrite (handle_unprepared _ _ _ _ P).
    destruct e; unfold trace; simpl fst; rewrite ?filter_app, R; simpl;
      now rewrite ?app_nil_r.
  - rewrite (handle_out_of_fuel _ _ _ P). unfold trace; simpl fst.
    exact R.
Qed.

(** X3. A message file that exists but cannot be read ends the
    invocation at once with the [CommandError] that quotes the path and
    gives the cause; nothing is shown, asked or sent. *)
Theorem unreadable_message_file fuel o exc :
  isfile env (message o) = true ->
  file_read env (message o) = inr exc ->
  handle fuel o
  = ([EvOpenRead (message o)],
     Raise (CommandError (read_error_message (message o) exc))).
Proof.
  intros F R.
  unfold Command.handle, Command.handle_send_mail, Command.prepare,
    read_message.
  now rewrite F, R, format_read_error_text.
Qed.

Lemma read_message_result o ev o1 :
  read_message env o = (ev, Return o1) ->
  (isfile env (message o) = true
   /\ file_read env (message o) = inl (message o1)
   /\ interactive o1 = interactive o)
  \/ (isfile env (message o) = false /\ message o = "-"
      /\ stdin_read env = Got (message o1)
      /\ interactive o1 = false /\ ev = [EvStdinRead])
  \/ (isfile env (message o) = false /\ message o <> "-"
      /\ message o1 = message o /\ interactive o1 = interactive o).
Proof.
  unfold read_message.
  destruct (isfile env (message o)) eqn:F.
  - destruct (file_read env (message o)) as [text|exc] eqn:R.
    + intros H; inversion H; subst. left. auto.
    + rewrite format_read_error_text. discriminate.
  - destruct (String.eqb (message o) "-") eqn:D.
    + apply String.eqb_eq in D.
      destruct (stdin_read env) eqn:S; [|discriminate].
      intros H; inversion H; subst. right; left. auto 10.
    + apply String.eqb_neq in D.
      intros H; inversion H; subst. right; right. auto.
Qed.

(** The finished request of a run that sent one. *)
Lemma sent_request fuel o m silently :
  In (EvSend m silently) (trace (handle fuel o)) ->
  exists ev rl o' o1,
    prepare fuel o = (ev, Return (rl, o'))
    /\ m = request rl o' /\ silently = fail_silently o'
    /\ read_message env o = (ev, Return o1)
    /\ message o' = message o1 /\ interactive o' = interactive o1.
Proof.
  intros H. apply handle_sends in H as (ev & rl & o' & P & -> & -> & _).
  pose proof (prepare_Return _ _ _ _ _ _ _ _ P) as [(o1 & R & M1 & I1)].
  exists ev, rl, o', o1. auto 10.
Qed.

(** X4. A message argument that is neither a regular file nor "-" is
    the body itself: whatever is sent carries it unchanged. *)
Theorem literal_message_is_the_body fuel o m silently :
  isfile env (message o) = false ->
  message o <> "-" ->
  In (EvSend m silently) (trace (handle fuel o)) ->
  em_body m = message o.
Proof.
  intros F D H.
  apply sent_request in H as (ev & rl & o' & o1 & _ & -> & _ & R & M1 & _).
  simpl. rewrite M1.
  apply read_message_result in R
    as [(F' & _)|[(_ & D' & _)|(_ & _ & E & _)]]; congruence.
Qed.

(** X5. A message argument that names a regular file stands for the
    file: whatever is sent carries what reading the file gave. *)
Theorem file_contents_are_the_body fuel o m silently :
  isfile env (message o) = true ->
  In (EvSend m silently) (trace (handle fuel o)) ->
  file_read env (message o) = inl (em_body m).
Proof.
  intros F H.
  apply sent_request in H as (ev & rl & o' & o1 & _ & -> & _ & R & M1 & _).
  simpl. rewrite M1.
  apply read_message_result in R
    as [(_ & E & _)|[(F' & _)|(F' & _)]]; congruence.
Qed.

(** X6. A [CommandError] comes before anything is shown, asked or
    sent: the only events of such an invocation are the body being
    read, and the error is the one for the message file or the one for
    an address the validator rejects. *)
Theorem command_error_before_any_output fuel o msg :
  outcome (handle fuel o) = Raise (CommandError msg) ->
  trace (handle fuel o) = trace (read_message env o)
  /\ ((exists exc, msg = read_error_message (message o) exc)
      \/ (exists bad, validate_email bad = false
                      /\ msg = invalid_address_message bad)).
Proof.
  destruct (prepare fuel o) as [ev [[rl o']|e|]] eqn:P.
  - closed_form P; simpl; discriminate.
  - rewrite (handle_unprepared _ _ _ _ P).
    pose proof (prepare_read_trace _ _ _ _ P) as E.
    apply prepare_Raise in P
      as [(-> & _)|[(exc & -> & _)|[(bad & B & ->)|(-> & _)]]];
      simpl; intros H; inversion H; subst; eauto.
  - rewrite (handle_out_of_fuel _ _ _ P). discriminate.
Qed.

(** X9. When input ends at the prompt, [raw_input] raises [EOFError]
    and nothing catches it: the invocation fails with it, without the
    cancellation line and without sending. *)
Theorem end_of_input_at_prompt fuel o :
  In (EvPrompt PROMPT) (trace (handle fuel o)) ->
  raw_input env PROMPT = Got None ->
  outcome (handle fuel o) = Raise EOFError
  /\ ~ In (EvStderr CANCELLED) (trace (handle fuel o))
  /\ filter is_send (trace (handle fuel o)) = [].
Proof.
  intros H E. apply handle_prompts in H as (ev & rl & o' & P & I).
  pose proof (prepared_reads _ _ _ _ P) as Rd.
  rewrite (handle_closed_form _ _ _ _ _ P).
  unfold answer_of. rewrite I, E. simpl.
  split; [reflexivity|]. split.
  - intros H. apply in_app_iff in H as [H|H].
    + apply (in_reads _ _ Rd) in H. discriminate.
    + apply in_shown in H as [H|[H _]]; discriminate.
  - now rewrite filter_app, (reads_hold_no_send _ Rd), shown_no_send.
Qed.

Lemma prepared_prefix fuel o ev r :
  prepare fuel o = (ev, r) ->
  exists rest, trace (handle fuel o) = ev ++ rest.
Proof.
  intros P. rewrite handle_trace, handle_send_mail_bind, trace_bind, P.
  simpl. rewrite <- app_assoc. eauto.
Qed.

Lemma interactive_stays_off fuel o ev rl o' :
  prepare fuel o = (ev, Return (rl, o')) ->
  interactive o = false -> interactive o' = false.
Proof.
  intros P I.
  pose proof (prepare_Return _ _ _ _ _ _ _ _ P) as [(o1 & R & _ & I1)].
  rewrite I1.
  apply read_message_result in R
    as [(_ & _ & E)|[(_ & _ & _ & E & _)|(_ & _ & _ & E)]]; congruence.
Qed.

Lemma interactive_stays_on fuel o ev rl o' :
  prepare fuel o = (ev, Return (rl, o')) ->
  interactive o = true ->
  ~ In EvStdinRead ev ->
  interactive o' = true.
Proof.
  intros P I N.
  pose proof (prepare_Return _ _ _ _ _ _ _ _ P) as [(o1 & R & _ & I1)].
  rewrite I1.
  apply read_message_result in R
    as [(_ & _ & E)|[(_ & _ & _ & _ & E)|(_ & _ & _ & E)]];
    try congruence.
  subst ev. destruct N. now left.
Qed.

(** X10. Without interaction ([--noinput], or options that say so) the
    command never prompts, and once the addresses have passed
    validation the request goes to the Mailer. *)
Theorem noinput_never_prompts_and_sends fuel o :
  interactive o = false ->
  (forall p, ~ In (EvPrompt p) (trace (handle fuel o)))
  /\ (forall ev rl o',
        prepare fuel o = (ev, Return (rl, o')) ->
        In (EvSend (request rl o') (fail_silently o))
           (trace (handle fuel o))).
Proof.
  intros I. split.
  - intros p H. apply handle_prompts in H as (ev & rl & o' & P & I').
    rewrite (interactive_stays_off _ _ _ _ _ P I) in I'. discriminate.
  - intros ev rl o' P.
    pose proof (interactive_stays_off _ _ _ _ _ P I) as I'.
    pose proof (prepare_Return _ _ _ _ _ _ _ _ P) as Pr.
    rewrite <- (prep_silently _ _ _ _ _ _ _ Pr).
    rewrite (handle_closed_form _ _ _ _ _ P).
    unfold answer_of. rewrite I'. simpl.
    destruct (transport env (request rl o')) as [[detail|]|];
      [destruct (fail_silently o')| |]; simpl;
      rewrite !in_app_iff; right; right; now left.
Qed.

(** X11. With interaction on and the body not taken from standard
    input, a request is sent only after the prompt was shown and the
    operator gave a line that does not start with "n" or "N". *)
Theorem interactive_send_needs_an_answer fuel o m silently :
  In (EvSend m silently) (trace (handle fuel o)) ->
  interactive o = true ->
  ~ In EvStdinRead (trace (handle fuel o)) ->
  In (EvPrompt PROMPT) (trace (handle fuel o))
  /\ exists answer,
       raw_input env PROMPT = Got (Some answer)
       /\ starts_with_n answer = false.
Proof.
  intros H I N.
  apply handle_sends in H as (ev & rl & o' & P & _ & _ & A).
  assert (I' : interactive o' = true).
  { apply (interactive_stays_on _ _ _ _ _ P I).
    intros Hin. apply N.
    destruct (prepared_prefix _ _ _ _ P) as [rest ->].
    apply in_app_iff. now left. }
  split; [|exact (A I')].
  rewrite (handle_closed_form _ _ _ _ _ P).
  assert (Hs : In (EvPrompt PROMPT) (shown (verbosity_of o) rl o')).
  { unfold shown. rewrite I'. simpl. auto. }
  destruct (answer_of env o') as [[answer|]|];
    [destruct (interactive o' && starts_with_n answer);
     [|destruct (transport env (request rl o')) as [[detail|]|];
       [destruct (fail_silently o')| |]]| |];
    simpl; rewrite !in_app_iff; auto.
Qed.

(** X12. At verbosity 1 or less and without interaction the command
    writes nothing to its output stream. *)
Theorem quiet_without_verbosity fuel o text :
  (verbosity_of o <= 1)%Z ->
  interactive o = false ->
  ~ In (EvStdout text) (trace (handle fuel o)).
Proof.
  intros V I H.
  assert (Vb : (1 <? verbosity_of o)%Z = false) by (apply Z.ltb_ge; lia).
  destruct (prepare fuel o) as [ev [[rl o']|e|]] eqn:P;
    pose proof (prepared_reads _ _ _ _ P) as Rd.
  - pose proof (interactive_stays_off _ _ _ _ _ P I) as I'.
    rewrite (handle_closed_form _ _ _ _ _ P) in H.
    unfold answer_of, shown, sent_note in H. rewrite I', Vb in H.
    simpl in H.
    destruct (transport env (request rl o')) as [[detail|]|];
      [destruct (fail_silently o')| |]; simpl in H;
      apply in_app_iff in H as [H|H];
      try (apply (in_reads _ _ Rd) in H; discriminate);
      simpl in H; intuition discriminate.
  - rewrite (handle_unprepared _ _ _ _ P) in H.
    destruct e; simpl in H;
      try (apply (in_reads _ _ Rd) in H; discriminate).
    apply in_app_iff in H as [H|H];
      [apply (in_reads _ _ Rd) in H; discriminate|].
    simpl in H. intuition discriminate.
  - rewrite (handle_out_of_fuel _ _ _ P) in H. simpl in H.
    apply (in_reads _ _ Rd) in H. discriminate.
Qed.

Lemma not_shown_sent_note v rl o : ~ In (EvStdout SENT) (shown v rl o).
Proof.
  intros H. apply in_shown in H as [H|[H _]]; [|discriminate].
  symmetry in H. now apply preview_is_not_the_sent_note in H.
Qed.

Lemma not_read_stdout (l : list Event) text :
  Forall (fun e => is_read e = true) l -> ~ In (EvStdout text) l.
Proof. intros F H. apply (in_reads _ _ F) in H. discriminate. Qed.

Lemma not_read_send (l : list Event) m silently :
  Forall (fun e => is_read e = true) l -> ~ In (EvSend m silently) l.
Proof. intros F H. apply (in_reads _ _ F) in H. discriminate. Qed.

Lemma not_shown_send v rl o m silently :
  ~ In (EvSend m silently) (shown v rl o).
Proof. intros H. apply in_shown in H as [H|[H _]]; discriminate. Qed.

Lemma in_sent_note_iff v : In (EvStdout SENT) (sent_note v) <-> (1 < v)%Z.
Proof.
  unfold sent_note. destruct (1 <? v)%Z eqn:V; simpl.
  - apply Z.ltb_lt in V. tauto.
  - apply Z.ltb_ge in V. split; [tauto | lia].
Qed.

(** X13. The line "Message sent" is written exactly when the verbosity
    is above 1 and the invocation returns normally. *)
Theorem message_sent_iff_verbose_and_returned fuel o :
  In (EvStdout SENT) (trace (handle fuel o))
  <-> (1 < verbosity_of o)%Z /\ outcome (handle fuel o) = Return tt.
Proof.
  destruct (prepare fuel o) as [ev [[rl o']|e|]] eqn:P;
    pose proof (prepared_reads _ _ _ _ P) as Rd;
    pose proof (not_read_stdout _ SENT Rd) as N1.
  - pose proof (not_shown_sent_note (verbosity_of o) rl o') as N2.
    pose proof (in_sent_note_iff (verbosity_of o)) as N3.
    closed_form P; unfold trace, outcome; simpl fst; simpl snd;
      rewrite ?in_app_iff; cbn [In]; intuition (try discriminate).
  - rewrite (handle_unprepared _ _ _ _ P).
    destruct e; unfold trace, outcome; simpl fst; simpl snd;
      rewrite ?in_app_iff; cbn [In]; intuition (try discriminate).
  - rewrite (handle_out_of_fuel _ _ _ P). simpl.
    intuition (try discriminate).
Qed.

(** X14. When the Mailer fails on the request: with [fail_silently]
    the invocation returns normally, and without it the invocation
    fails with the Mailer's error and "Message sent" is not written. *)
Theorem delivery_failure_raises_unless_silent fuel o m silently detail :
  In (EvSend m silently) (trace (handle fuel o)) ->
  transport env m = Got (Some detail) ->
  if silently then outcome (handle fuel o) = Return tt
  else outcome (handle fuel o) = Raise (MailError detail)
       /\ ~ In (EvStdout SENT) (trace (handle fuel o)).
Proof.
  intros H Tm.
  pose proof H as H0.
  apply handle_sends in H0 as (ev & rl & o' & P & -> & -> & _).
  pose proof (prepared_reads _ _ _ _ P) as Rd.
  pose proof (not_read_send _ (request rl o') (fail_silently o') Rd) as N1.
  pose proof (not_shown_send (verbosity_of o) rl o' (request rl o')
                             (fail_silently o')) as N2.
  pose proof (not_read_stdout _ SENT Rd) as N3.
  pose proof (not_shown_sent_note (verbosity_of o) rl o') as N4.
  revert H. rewrite (handle_closed_form _ _ _ _ _ P). rewrite Tm.
  destruct (answer_of env o') as [[answer|]|].
  - destruct (interactive o' && starts_with_n answer).
    + simpl. rewrite !in_app_iff. simpl. intuition discriminate.
    + destruct (fail_silently o'); simpl; [reflexivity|].
      intros _. split; [reflexivity|].
      rewrite !in_app_iff. simpl. intuition discriminate.
  - simpl. rewrite !in_app_iff. tauto.
  - simpl. rewrite !in_app_iff. simpl. intuition discriminate.
Qed.

(** X15. What the preview shows is what is sent: when an invocation
    wrote a preview and sent a request, the preview is the layout
    filled with the subject, sender, To list, Cc list and body of that
    very request. *)
Theorem preview_shows_the_sent_request fuel o text m silently :
  In (EvStdout text) (trace (handle fuel o)) ->
  text <> SENT ->
  In (EvSend m silently) (trace (handle fuel o)) ->
  text = (Py.nl ++ spec_preview (em_subject m) (str (em_from_email m))
                                (em_to m) (or_empty (em_cc m)) (em_body m))%string.
Proof.
  intros H Ns Hs.
  apply handle_sends in Hs as (ev & rl & o' & P & -> & _ & _).
  pose proof (prepared_reads _ _ _ _ P) as Rd.
  pose proof (not_read_stdout _ text Rd) as N1.
  assert (Sh : In (EvStdout text) (shown (verbosity_of o) rl o') ->
               text = (Py.nl ++ spec_preview (subject o') (str (from_email o'))
                                             rl (or_empty (cc o')) (message o'))%string).
  { intros Hin. apply in_shown in Hin as [E|[E _]]; [|discriminate].
    unfold preview in E. now inversion E. }
  assert (Nt : In (EvStdout text) (sent_note (verbosity_of o)) -> False).
  { intros Hin. apply in_sent_note in Hin as [E _]. inversion E. auto. }
  revert H. rewrite (handle_closed_form _ _ _ _ _ P). simpl.
  destruct (answer_of env o') as [[answer|]|];
    [destruct (interactive o' && starts_with_n answer);
     [|destruct (transport env (request rl o')) as [[detail|]|];
       [destruct (fail_silently o')| |]]| |];
    simpl; rewrite ?in_app_iff; simpl; rewrite ?in_app_iff; simpl;
    intuition discriminate.
Qed.

(** X16. With a validator that rejects the two group names (as one
    that asks for an at-sign does), no group name is ever sent: the To
    list of a sent request is the given addresses, in their order and
    number, followed by what resolution appended, and no entry of its
    To, Cc or Bcc list is a group name. *)
Theorem no_group_name_is_sent fuel o m silently :
  validate_email "ADMINS" = false ->
  validate_email "MANAGERS" = false ->
  In (EvSend m silently) (trace (handle fuel o)) ->
  (exists extra, em_to m = filter is_address (recipient o) ++ extra)
  /\ Forall (fun r => is_group r = false)
            (em_to m ++ or_empty (em_cc m) ++ or_empty (em_bcc m)).
Proof.
  intros Va Vm H.
  apply handle_sends in H as (ev & rl & o' & P & -> & _ & _).
  pose proof (prepare_Return _ _ _ _ _ _ _ _ P) as Pr. destruct Pr.
  assert (G : forall l, Forall (fun r => validate_email r = true) l ->
                        Forall (fun r => is_group r = false) l).
  { intros l F. eapply Forall_impl; [|exact F]. simpl. intros r Vr.
    destruct (is_group r) eqn:Gr; [|reflexivity].
    apply is_group_cases in Gr as [->| ->]; congruence. }
  assert (K : forall l, Forall (fun r => is_group r = false) l ->
                        filter is_address l = l).
  { induction 1 as [|r l Hr _ IH]; [reflexivity|]. simpl.
    unfold is_address at 1. now rewrite Hr, IH. }
  simpl. split.
  - destruct prep_to_kept0 as [extra E]. exists extra.
    now rewrite <- E, (K _ (G _ prep_to_valid0)).
  - repeat (apply Forall_app; split); auto.
Qed.


(** C8, amended. Whenever the operator declines at the prompt or
    interrupts the command (while it waits at the prompt, for standard
    input, or for the Mailer), the process exits with code 1 and the
    last thing it wrote is the line "Operation cancelled.".  After a
    decline, or an interrupt at the prompt or at the read of standard
    input, the Mailer was never invoked; the only request that can have
    reached it is the one the operator interrupted it on. *)
Theorem cancellation_exits_1 fuel o :
  cancelled_waiting env (trace (handle fuel o))
  \/ interrupted_sending env (trace (handle fuel o)) ->
  outcome (handle fuel o) = Raise (SystemExit 1)
  /\ (exists before,
        trace (handle fuel o) = before ++ [EvStderr CANCELLED])
  /\ (cancelled_waiting env (trace (handle fuel o)) ->
      forall m silently, ~ In (EvSend m silently) (trace (handle fuel o)))
  /\ (forall m silently,
        In (EvSend m silently) (trace (handle fuel o)) ->
        transport env m = Interrupted).
Proof.
  intros [W|(m & silently & Hs & T)].
  - destruct (cancelled_waiting_exits_1 _ _ _ _ _ W) as (O & L & N).
    split; [exact O|]. split; [exact L|]. split; [intros _; exact N|].
    intros m silently Hs. now destruct (N _ _ Hs).
  - pose proof Hs as Hs'.
    apply handle_sends in Hs' as (ev & rl & o' & P & -> & -> & _).
    pose proof (prepared_reads _ _ _ _ P) as Rd.
    pose proof (not_read_send _ (request rl o') (fail_silently o') Rd) as N1.
    pose proof (not_shown_send (verbosity_of o) rl o' (request rl o')
                               (fail_silently o')) as N2.
    assert (E : handle fuel o
                = (ev ++ shown (verbosity_of o) rl o'
                      ++ [EvSend (request rl o') (fail_silently o');
                          EvStderr CANCELLED],
                   Raise (SystemExit 1))).
    { revert Hs. rewrite (handle_closed_form _ _ _ _ _ P). rewrite T.
      destruct (answer_of env o') as [[answer|]|];
        [destruct (interactive o' && starts_with_n answer)| |];
        try reflexivity;
        simpl; rewrite !in_app_iff; simpl; intuition discriminate. }
    split; [now rewrite E|]. split.
    + rewrite E.
      exists (ev ++ shown (verbosity_of o) rl o'
                 ++ [EvSend (request rl o') (fail_silently o')]).
      simpl. now rewrite <- !app_assoc.
    + split.
      * intros W.
        destruct (cancelled_waiting_exits_1 _ _ _ _ _ W) as (_ & _ & N).
        now destruct (N _ _ Hs).
      * intros m silently Hm. rewrite E in Hm. simpl in Hm.
        rewrite !in_app_iff in Hm. simpl in Hm.
        destruct Hm as [Hm|[Hm|[Hm|[Hm|[]]]]];
          [now destruct (not_read_send _ m silently Rd)
          |now destruct (not_shown_send (verbosity_of o) rl o' m silently)
          | inversion Hm; subst; exact T
          | discriminate Hm].
Qed.

(** *** The three lists, in the order the command takes them *)

Lemma bind_ext {A B} (m : M A) (k1 k2 : A -> M B) :
  (forall a, k1 a = k2 a) -> bind m k1 = bind m k2.
Proof.
  intros E. destruct m as [ev1 [a| |]]; simpl; try reflexivity.
  now rewrite E.
Qed.

Lemma bind_assoc {A B C} (m : M A) (f : A -> M B) (g : B -> M C) :
  bind (bind m f) g = bind m (fun a => bind (f a) g).
Proof.
  destruct m as [ev1 [a| |]]; simpl; try reflexivity.
  destruct (f a) as [ev2 [b| |]]; simpl; try reflexivity.
  destruct (g b) as [ev3 r]. now rewrite app_assoc.
Qed.

Lemma process_list_valid fuel lst lst' :
  resolved settings fuel lst = ([], Return lst') ->
  Forall (fun r => validate_email r = true) lst' ->
  process_list validate_email settings fuel lst = ([], Return lst').
Proof.
  intros R V. unfold process_list, resolved in *.
  destruct lst as [|x lst].
  - now inversion R.
  - now rewrite R, bind_silent, (validate_all_valid _ _ V).
Qed.

Lemma process_list_invalid fuel lst pre bad post :
  resolved settings fuel lst = ([], Return (pre ++ bad :: post)) ->
  Forall (fun r => validate_email r = true) pre ->
  validate_email bad = false ->
  process_list validate_email settings fuel lst
  = ([], Raise (CommandError (invalid_address_message bad))).
Proof.
  intros R V B. unfold process_list, resolved in *.
  destruct lst as [|x lst].
  - inversion R as [E]. now destruct pre.
  - now rewrite R, bind_silent, (validate_all_first_invalid _ _ _ _ V B).
Qed.

(** The value under [bcc] or [cc] goes through lines 114-125 as the
    list of its entries does. *)
Lemma process_value_as_list fuel v :
  (forall s, v = CStr s -> s = EmptyString) ->
  process_value validate_email settings fuel v
  = bind (process_list validate_email settings fuel (or_empty v))
         (fun l' => ret (if truthy v then CList l' else v)).
Proof.
  intros N. destruct v as [|s|[|x l]]; try reflexivity.
  now rewrite (N s eq_refl).
Qed.

Lemma split_copy_of_flag (given : option string) :
  exists v,
    split_copy (copy_of (store None given)) = ret v
    /\ or_empty v = given_copies (copy_of (store None given))
    /\ (forall s, v = CStr s -> s = EmptyString).
Proof.
  destruct given as [[|c s]|]; simpl.
  - exists (CStr EmptyString). repeat split. intros s E. now inversion E.
  - eexists. split; [reflexivity|]. split; [reflexivity|]. discriminate.
  - exists CNone. repeat split. discriminate.
Qed.

(** Lines 106-131 once the body is read, as three lists processed in
    turn: To, then Bcc, then Cc. *)
Lemma prepare_lists fuel cl ev o1 :
  read_message env (add_arguments cl) = (ev, Return o1) ->
  exists vb vc (finish : CopyVal -> CopyVal -> Options),
    or_empty vb = given_copies (bcc (add_arguments cl))
    /\ or_empty vc = given_copies (cc (add_arguments cl))
    /\ (forall b' c', bcc (finish b' c') = b' /\ cc (finish b' c') = c')
    /\ forall r,
         bind (process_list validate_email settings fuel
                 (recipient (add_arguments cl)))
           (fun rl =>
            bind (process_list validate_email settings fuel (or_empty vb))
              (fun lb =>
               bind (process_list validate_email settings fuel (or_empty vc))
                 (fun lc =>
                  ret (rl, finish (if truthy vb then CList lb else vb)
                                  (if truthy vc then CList lc else vc)))))
         = ([], r) ->
         prepare fuel (add_arguments cl) = (ev, r).
Proof.
  intros R.
  pose proof (read_message_Return _ _ _ _ R) as E1.
  assert (B : bcc o1 = bcc (add_arguments cl)) by (rewrite E1; reflexivity).
  assert (C : cc o1 = cc (add_arguments cl)) by (rewrite E1; reflexivity).
  destruct (split_copy_of_flag (cl_bcc cl)) as (vb & Sb & Eb & Nb).
  destruct (split_copy_of_flag (cl_cc cl)) as (vc & Sc & Ec & Nc).
  exists vb, vc,
    (fun b' c' =>
       let o2 := set_cc c' (set_bcc b' (set_cc vc (set_bcc vb o1))) in
       let o3 := set_subject
                   ((if noprefix o2 then EmptyString
                     else EMAIL_SUBJECT_PREFIX settings)
                    ++ (subject (add_arguments cl) ++ EmptyString))%string
                   o2 in
       match from_email o3 with
       | None => set_from_email (Some (DEFAULT_FROM_EMAIL settings)) o3
       | Some _ => o3
       end).
  split; [exact Eb|]. split; [exact Ec|]. split.
  { intros b' c'. simpl. destruct (from_email o1); split; reflexivity. }
  intros r H.
  assert (K : forall (k : Options -> M (list string * Options)),
             k o1 = ([], r) -> bind (ev, Return o1) k = (ev, r)).
  { intros k Hk. simpl. rewrite Hk. now rewrite app_nil_r. }
  unfold Command.prepare. rewrite R. apply K. rewrite <- H. clear K H.
  rewrite B. change (bcc (add_arguments cl))
    with (copy_of (store None (cl_bcc cl))).
  rewrite Sb, bind_ret.
  change (cc (set_bcc vb o1)) with (cc o1). rewrite C.
  change (cc (add_arguments cl)) with (copy_of (store None (cl_cc cl))).
  rewrite Sc, bind_ret.
  apply bind_ext. intros rl.
  change (bcc (set_cc vc (set_bcc vb o1))) with vb.
  rewrite (process_value_as_list fuel vb Nb), bind_assoc.
  apply bind_ext. intros lb. rewrite bind_ret.
  change (cc (set_bcc (if truthy vb then CList lb else vb)
                      (set_cc vc (set_bcc vb o1)))) with vc.
  rewrite (process_value_as_list fuel vc Nc), bind_assoc.
  apply bind_ext. intros lc. rewrite bind_ret.
  reflexivity.
Qed.

(** C3. Validation takes the command's three lists in turn (To, then
    Bcc, then Cc), each as it stands after its group names are
    resolved, and checks the entries in list order.  On the first
    entry the validator rejects, the command fails with the error that
    names that entry, whatever comes after it in that list or in a
    later one; when every entry of the three lists is valid nothing is
    raised and the lists go on as they are. *)
Theorem validation_fails_on_first_invalid fuel cl ev o1 t :
  read_message env (add_arguments cl) = (ev, Return o1) ->
  resolved settings fuel (recipient (add_arguments cl)) = ([], Return t) ->
  (forall pre bad post,
      t = pre ++ bad :: post ->
      Forall (fun r => validate_email r = true) pre ->
      validate_email bad = false ->
      handle fuel (add_arguments cl)
      = (ev, Raise (CommandError (invalid_address_message bad))))
  /\ (Forall (fun r => validate_email r = true) t ->
      forall b,
        resolved settings fuel (given_copies (bcc (add_arguments cl)))
        = ([], Return b) ->
        (forall pre bad post,
            b = pre ++ bad :: post ->
            Forall (fun r => validate_email r = true) pre ->
            validate_email bad = false ->
            handle fuel (add_arguments cl)
            = (ev, Raise (CommandError (invalid_address_message bad))))
        /\ (Forall (fun r => validate_email r = true) b ->
            forall c,
              resolved settings fuel (given_copies (cc (add_arguments cl)))
              = ([], Return c) ->
              (forall pre bad post,
                  c = pre ++ bad :: post ->
                  Forall (fun r => validate_email r = true) pre ->
                  validate_email bad = false ->
                  handle fuel (add_arguments cl)
                  = (ev, Raise (CommandError (invalid_address_message bad))))
              /\ (Forall (fun r => validate_email r = true) c ->
                  exists o',
                    prepare fuel (add_arguments cl) = (ev, Return (t, o'))
                    /\ or_empty (bcc o') = b
                    /\ or_empty (cc o') = c))).
Proof.
  intros R Ht.
  destruct (prepare_lists fuel cl ev o1 R)
    as (vb & vc & finish & Eb & Ec & F & K).
  assert (Fail : forall bad,
             prepare fuel (add_arguments cl)
             = (ev, Raise (CommandError (invalid_address_message bad))) ->
             handle fuel (add_arguments cl)
             = (ev, Raise (CommandError (invalid_address_message bad)))).
  { intros bad P. now rewrite (handle_unprepared _ _ _ _ P). }
  split.
  { intros pre bad post -> Vp Vb. apply Fail, K.
    now rewrite (process_list_invalid _ _ _ _ _ Ht Vp Vb). }
  intros Vt b Hb. rewrite <- Eb in Hb.
  pose proof (process_list_valid _ _ _ Ht Vt) as Pt. split.
  { intros pre bad post -> Vp Vb. apply Fail, K.
    rewrite Pt, bind_silent.
    now rewrite (process_list_invalid _ _ _ _ _ Hb Vp Vb). }
  intros Vb c Hc. rewrite <- Ec in Hc.
  pose proof (process_list_valid _ _ _ Hb Vb) as Pb. split.
  { intros pre bad post -> Vp Vc. apply Fail, K.
    rewrite Pt, bind_silent, Pb, bind_silent.
    now rewrite (process_list_invalid _ _ _ _ _ Hc Vp Vc). }
  intros Vc.
  pose proof (process_list_valid _ _ _ Hc Vc) as Pc.
  exists (finish (if truthy vb then CList b else vb)
                 (if truthy vc then CList c else vc)).
  split.
  - apply K. now rewrite Pt, bind_silent, Pb, bind_silent, Pc, bind_silent.
  - destruct (F (if truthy vb then CList b else vb)
                (if truthy vc then CList c else vc)) as [-> ->].
    assert (O : forall v l,
               resolved settings fuel (or_empty v) = ([], Return l) ->
               or_empty (if truthy v then CList l else v) = l).
    { intros v l H. destruct (truthy v) eqn:T; [reflexivity|].
      assert (E : or_empty v = []).
      { destruct v as [|s|[|x l0]]; try reflexivity;
          [unfold or_empty; now rewrite T | discriminate T]. }
      rewrite E in *. simpl in H. now inversion H. }
    split; apply O; assumption.
Qed.

End Delivery.

(* ================================================================== *)
(** ** More on resolving group names *)

Section ResolutionRuns.

Variable settings : Settings.

Local Abbreviation resolve := (resolve_groups settings).
Local Abbreviation addresses := (get_addresses settings).

Lemma resolve_groups_plain_run fuel : forall i lst,
  Forall (fun r => is_group r = false) lst ->
  List.length lst - i < fuel ->
  resolve fuel i lst = ([], Return lst).
Proof.
  induction fuel as [|fuel IH]; intros i lst P Hf; [lia|]. simpl.
  destruct (nth_error lst i) as [r|] eqn:N; [|reflexivity].
  assert (Hi : i < List.length lst) by (apply nth_error_Some; congruence).
  pose proof P as P'. rewrite Forall_forall in P'.
  rewrite (P' r (nth_error_In _ _ N)). apply IH; [assumption | lia].
Qed.

Lemma resolve_groups_more_fuel fuel : forall fuel' i lst ev lst',
  fuel <= fuel' ->
  resolve fuel i lst = (ev, Return lst') ->
  resolve fuel' i lst = (ev, Return lst').
Proof.
  induction fuel as [|fuel IH]; intros fuel' i lst ev lst' Hf;
    [discriminate|].
  destruct fuel' as [|fuel']; [lia|]. simpl.
  destruct (nth_error lst i) as [r|]; [|auto].
  destruct (is_group r).
  - destruct (Py.remove r lst); [|auto]. apply IH. lia.
  - apply IH. lia.
Qed.

(** X7. The loop never raises: the entry the iterator has just
    yielded is still in the list, so [lst.remove] finds it and its
    [ValueError] cannot occur, whatever the list, the settings and the
    position the iteration starts from. *)
Theorem resolution_never_raises fuel i lst e :
  outcome (resolve fuel i lst) <> Raise e.
Proof.
  revert i lst. induction fuel as [|fuel IH]; intros i lst; simpl;
    [discriminate|].
  destruct (nth_error lst i) as [r|] eqn:N; [|discriminate].
  destruct (is_group r); [|apply IH].
  destruct (remove_In r lst (nth_error_In _ _ N)) as [lst' R].
  rewrite R. apply IH.
Qed.

(** X17. A list without group names comes out of resolution as it went
    in, whatever the settings, once the iterator has had one step per
    entry and one to see the end. *)
Theorem list_without_group_names_is_unchanged fuel lst :
  Forall (fun r => is_group r = false) lst ->
  List.length lst < fuel ->
  resolve fuel 0 lst = ([], Return lst).
Proof.
  intros P Hf. apply resolve_groups_plain_run; [assumption | lia].
Qed.

(** X18. When group lookups hold addresses only and no two group names
    are adjacent in the list, resolution gives the addresses of the list
    in their order, followed by the lookup of each group name in the
    order the names appear. *)
Theorem groups_apart_resolve_fully fuel lst :
  (forall g, Forall (fun r => is_group r = false) (addresses g)) ->
  groups_apart lst = true ->
  resolution_steps settings lst < fuel ->
  resolve fuel 0 lst
  = ([], Return (filter is_address lst
                 ++ flat_map addresses (filter is_group lst))).
Proof.
  intros L Ap Hf.
  destruct (resolve_groups_terminates settings L fuel 0 lst) as [lst' R].
  { unfold resolution_steps in Hf. lia. }
  rewrite R. do 2 f_equal.
  pose proof (resolve_groups_apart_from settings L fuel lst [] [] [] lst')
    as H.
  simpl in H. rewrite app_nil_r in H. now apply H.
Qed.

(** X19. When group lookups hold addresses only, resolution of any
    list ends, and with one result whatever the fuel above the bound:
    a list that keeps the given addresses in their order and number. *)
Theorem resolution_ends_with_one_result lst :
  (forall g, Forall (fun r => is_group r = false) (addresses g)) ->
  exists lst',
    (forall fuel,
        resolution_steps settings lst < fuel ->
        resolve fuel 0 lst = ([], Return lst'))
    /\ exists extra,
         filter is_address lst' = filter is_address lst ++ extra.
Proof.
  intros L.
  destruct (resolve_groups_terminates
              settings L (S (resolution_steps settings lst)) 0 lst)
    as [lst' R].
  { unfold resolution_steps. lia. }
  exists lst'. split.
  - intros fuel Hf.
    apply (resolve_groups_more_fuel (S (resolution_steps settings lst)));
      [lia | exact R].
  - eapply resolve_groups_keeps_addresses; eauto.
Qed.

Lemma remove_before (x : string) : forall pre rest,
  exists pre1,
    Py.remove x (pre ++ x :: rest) = Some (pre1 ++ rest)
    /\ List.length pre1 = List.length pre.
Proof.
  induction pre as [|y pre IH]; intros rest; simpl.
  - exists []. now rewrite String.eqb_refl.
  - destruct (String.eqb y x) eqn:E.
    + apply String.eqb_eq in E; subst y.
      exists (pre ++ [x]). rewrite <- app_assoc. simpl.
      split; [reflexivity|]. rewrite length_app. simpl. lia.
    + destruct (IH rest) as (pre1 & R & Len). rewrite R. simpl.
      exists (y :: pre1). simpl. auto.
Qed.

(** X20. A group whose lookup is the group's own name, twice or more,
    keeps the loop running for ever: once the iterator stands on such a
    name with only such names after it, every step removes one and
    appends at least two, and no amount of fuel reaches the end. *)
Theorem self_naming_group_never_ends g k fuel : forall pre n,
  is_group g = true ->
  addresses g = repeat g (2 + k) ->
  outcome (resolve fuel (List.length pre) (pre ++ repeat g (S n)))
  = OutOfFuel.
Proof.
  induction fuel as [|fuel IH]; intros pre n G A; [reflexivity|].
  change (repeat g (S n)) with (g :: repeat g n).
  cbn [resolve_groups].
  rewrite nth_error_app2 by lia. rewrite Nat.sub_diag. cbn [nth_error].
  rewrite G.
  destruct (remove_before g pre (repeat g n)) as (pre1 & R & Len).
  rewrite R, A.
  replace ((pre1 ++ repeat g n) ++ repeat g (2 + k))
    with ((pre1 ++ [g]) ++ repeat g (S (n + k))).
  - replace (S (List.length pre)) with (List.length (pre1 ++ [g]))
      by (rewrite length_app; simpl; lia).
    now apply IH.
  - rewrite <- !app_assoc. f_equal.
    rewrite <- repeat_app.
    replace (n + (2 + k)) with (S (S (n + k))) by lia.
    reflexivity.
Qed.

End ResolutionRuns.

(* ================================================================== *)
(** ** The copies given under [--bcc] and [--cc] (lines 109-111) *)

Lemma split_length (s : string) :
  List.length (Py.split "," s) = S (count_commas s).
Proof.
  induction s as [|c s IH]; [reflexivity|]. simpl.
  destruct (Ascii.eqb c ","); simpl; [now rewrite IH|].
  destruct (Py.split "," s); [discriminate IH | exact IH].
Qed.

Lemma split_pieces_hold_no_comma (s : string) :
  Forall (fun a => has_comma a = false) (Py.split "," s).
Proof.
  induction s as [|c s IH]; simpl; [repeat constructor|].
  destruct (Ascii.eqb c ",") eqn:E; [now constructor|].
  destruct (Py.split "," s) as [|h t].
  - repeat constructor. simpl. now rewrite E.
  - inversion IH; subst. constructor; [|assumption]. simpl. now rewrite E.
Qed.

Lemma lstrip_holds_no_comma (s : string) :
  has_comma s = false -> has_comma (Py.lstrip s) = false.
Proof.
  induction s as [|c s IH]; [reflexivity|]. simpl. intros H.
  apply orb_false_iff in H as [Hc Hs].
  destruct (Py.isspace c); [auto|]. simpl. now rewrite Hc, Hs.
Qed.

Lemma rstrip_holds_no_comma (s : string) :
  has_comma s = false -> has_comma (Py.rstrip s) = false.
Proof.
  induction s as [|c s IH]; [reflexivity|]. simpl. intros H.
  apply orb_false_iff in H as [Hc Hs]. specialize (IH Hs).
  destruct (Py.rstrip s) as [|c' r'].
  - destruct (Py.isspace c); [reflexivity|]. simpl. now rewrite Hc.
  - simpl. simpl in IH. now rewrite Hc, IH.
Qed.

Lemma rstrip_rstrip (s : string) : Py.rstrip (Py.rstrip s) = Py.rstrip s.
Proof.
  induction s as [|c s IH]; [reflexivity|]. simpl.
  destruct (Py.rstrip s) as [|c' r'] eqn:E.
  - destruct (Py.isspace c) eqn:W; [reflexivity|]. simpl. now rewrite W.
  - change (Py.rstrip (String c (String c' r')))
      with (match Py.rstrip (String c' r') with
            | EmptyString =>
                if Py.isspace c then EmptyString else String c EmptyString
            | String a b => String c (String a b)
            end).
    now rewrite IH.
Qed.

Lemma lstrip_starts_clean (s : string) :
  match Py.lstrip s with
  | EmptyString => True
  | String c _ => Py.isspace c = false
  end.
Proof.
  induction s as [|c s IH]; simpl; [exact I|].
  destruct (Py.isspace c) eqn:W; [exact IH | exact W].
Qed.

Lemma rstrip_keeps_clean_start (s : string) :
  match s with EmptyString => True | String c _ => Py.isspace c = false end ->
  Py.lstrip (Py.rstrip s) = Py.rstrip s.
Proof.
  destruct s as [|c s]; [reflexivity|]. simpl. intros W.
  destruct (Py.rstrip s) as [|c' r']; rewrite ?W; simpl; now rewrite W.
Qed.

Lemma strip_strip (s : string) : Py.strip (Py.strip s) = Py.strip s.
Proof.
  unfold Py.strip.
  rewrite (rstrip_keeps_clean_start _ (lstrip_starts_clean s)).
  apply rstrip_rstrip.
Qed.

Lemma split_joins_back (s : string) : Py.join "," (Py.split "," s) = s.
Proof.
  unfold Py.join. induction s as [|c s IH]; [reflexivity|]. simpl.
  destruct (Ascii.eqb c ",") eqn:E.
  - apply Ascii.eqb_eq in E; subst c.
    pose proof (split_length s) as L.
    destruct (Py.split "," s) as [|h t]; [discriminate L|].
    change (String.concat "," (EmptyString :: h :: t))
      with (String "," (String.concat "," (h :: t))).
    now rewrite IH.
  - pose proof (split_length s) as L.
    destruct (Py.split "," s) as [|h t]; [discriminate L|].
    rewrite <- IH. now destruct t.
Qed.

Lemma split_trailing_comma (s : string) :
  Py.split "," (s ++ ",") = Py.split "," s ++ [EmptyString].
Proof.
  induction s as [|c s IH]; [reflexivity|]. simpl.
  destruct (Ascii.eqb c ","); [now rewrite IH|].
  rewrite IH.
  pose proof (split_length s) as L.
  destruct (Py.split "," s) as [|h t]; [discriminate L | reflexivity].
Qed.

(** X21. A non-empty [--bcc] or [--cc] value is cut at its commas and
    each piece is stripped: the pieces hold no comma and joined with
    commas give the value back, there is one more of them than the
    value has commas (so never none), the list stored is the stripped
    pieces in order, every entry of it is free of commas and of
    surrounding whitespace, and a value that ends in a comma gives a
    list that ends in an empty entry. *)
Theorem copies_are_stripped_pieces (s : string) :
  s <> EmptyString ->
  exists pieces,
    Py.join "," pieces = s
    /\ Forall (fun a => has_comma a = false) pieces
    /\ List.length pieces = S (count_commas s)
    /\ split_copy (CStr s) = ret (CList (map Py.strip pieces))
    /\ Forall (fun a => Py.strip a = a /\ has_comma a = false)
              (map Py.strip pieces)
    /\ (forall s', s = (s' ++ ",")%string ->
        exists init, map Py.strip pieces = init ++ [EmptyString]).
Proof.
  intros N. exists (Py.split "," s).
  split; [apply split_joins_back|].
  split; [apply split_pieces_hold_no_comma|].
  split; [apply split_length|]. split; [|split].
  - unfold split_copy. destruct s; [congruence | reflexivity].
  - apply Forall_map.
    eapply Forall_impl; [|apply split_pieces_hold_no_comma].
    intros a H. split; [apply strip_strip|].
    unfold Py.strip.
    now apply rstrip_holds_no_comma, lstrip_holds_no_comma.
  - intros s' ->. exists (map Py.strip (Py.split "," s')).
    now rewrite split_trailing_comma, map_app.
Qed.

(* ================================================================== *)
(** ** The command ends *)

Section Termination.

Variable validate_email : string -> bool.
Variable settings : Settings.
Variable env : Env.

Hypothesis lookups_plain :
  forall g, Forall (fun r => is_group r = false) (get_addresses settings g).

Lemma bind_OutOfFuel_inv {A B} (m : M A) (k : A -> M B) ev :
  bind m k = (ev, OutOfFuel) ->
  outcome m = OutOfFuel
  \/ exists a, outcome m = Return a /\ outcome (k a) = OutOfFuel.
Proof.
  destruct m as [ev1 [a| e1|]]; simpl.
  - destruct (k a) as [ev2 r] eqn:E. intros H; inversion H; subst.
    right. exists a. now rewrite E.
  - discriminate.
  - auto.
Qed.

Lemma validate_all_ends lst :
  outcome (validate_all validate_email lst) <> OutOfFuel.
Proof.
  induction lst as [|r lst IH]; simpl; [discriminate|].
  destruct (validate_email r); [exact IH | discriminate].
Qed.

Lemma process_list_ends fuel lst :
  resolution_steps settings lst < fuel ->
  outcome (process_list validate_email settings fuel lst) <> OutOfFuel.
Proof.
  intros Hf. unfold process_list. destruct lst as [|x lst]; [discriminate|].
  destruct (resolve_groups_terminates settings lookups_plain fuel 0 (x :: lst))
    as [lst' R].
  { unfold resolution_steps in Hf. lia. }
  rewrite R, bind_silent, outcome_bind.
  pose proof (validate_all_ends lst') as V.
  destruct (outcome (validate_all validate_email lst')) as [[]| |];
    [discriminate | discriminate | congruence].
Qed.

Lemma process_value_ends fuel v :
  resolution_steps settings (or_empty v) < fuel ->
  outcome (process_value validate_email settings fuel v) <> OutOfFuel.
Proof.
  intros Hf. unfold process_value.
  destruct (truthy v) eqn:T; simpl; [|discriminate].
  destruct v as [|s|l]; [discriminate| |].
  - rewrite chars_no_group, outcome_bind.
    pose proof (validate_all_ends (Py.chars s)) as V.
    destruct (outcome (validate_all validate_email (Py.chars s)))
      as [[]| |]; [discriminate | discriminate | congruence].
  - rewrite outcome_bind.
    pose proof (process_list_ends fuel l Hf) as V.
    destruct (outcome (process_list validate_email settings fuel l));
      [discriminate | discriminate | congruence].
Qed.

Lemma read_message_ends o : outcome (read_message env o) <> OutOfFuel.
Proof.
  unfold read_message.
  destruct (isfile env (message o)).
  - destruct (file_read env (message o)) as [text|exc]; [discriminate|].
    rewrite format_read_error_text. discriminate.
  - destruct (String.eqb (message o) "-"); [|discriminate].
    destruct (stdin_read env); discriminate.
Qed.

Lemma split_copy_ends v : outcome (split_copy v) <> OutOfFuel.
Proof.
  unfold split_copy. destruct (truthy v); [|discriminate].
  destruct v; discriminate.
Qed.

Lemma prepare_ends fuel o :
  resolution_steps settings (recipient o) < fuel ->
  resolution_steps settings (given_copies (bcc o)) < fuel ->
  resolution_steps settings (given_copies (cc o)) < fuel ->
  outcome (prepare validate_email settings env fuel o) <> OutOfFuel.
Proof.
  intros Ft Fb Fc H.
  destruct (prepare validate_email settings env fuel o) as [ev r] eqn:P.
  simpl in H. subst r. unfold Command.prepare in P.
  apply bind_OutOfFuel_inv in P as [P|(o1 & R & P)];
    [now apply read_message_ends in P|].
  assert (E1 : o1 = set_message (message o1)
                      (set_interactive (interactive o1) o)).
  { apply (read_message_Return env o (trace (read_message env o))).
    rewrite <- R. apply surjective_M. }
  assert (B : bcc o1 = bcc o) by (rewrite E1; reflexivity).
  assert (C : cc o1 = cc o) by (rewrite E1; reflexivity).
  rewrite outcome_bind in P.
  destruct (outcome (split_copy (bcc o1))) as [b| |] eqn:Sb;
    [|discriminate|now apply split_copy_ends in Sb].
  rewrite outcome_bind in P. simpl in P.
  destruct (outcome (split_copy (cc o1))) as [c| |] eqn:Sc;
    [|discriminate|now apply split_copy_ends in Sc].
  assert (Eb : or_empty b = given_copies (bcc o)).
  { rewrite <- B.
    apply (split_copy_Return (bcc o1) (trace (split_copy (bcc o1)))).
    rewrite <- Sb. apply surjective_M. }
  assert (Ec : or_empty c = given_copies (cc o)).
  { rewrite <- C.
    apply (split_copy_Return (cc o1) (trace (split_copy (cc o1)))).
    rewrite <- Sc. apply surjective_M. }
  rewrite outcome_bind in P.
  pose proof (process_list_ends fuel (recipient o) Ft) as Pl.
  destruct (outcome (process_list validate_email settings fuel (recipient o)))
    as [rl| |]; [|discriminate|congruence].
  rewrite outcome_bind in P. simpl in P.
  rewrite <- Eb in Fb. rewrite <- Ec in Fc.
  pose proof (process_value_ends fuel b Fb) as Pb.
  destruct (outcome (process_value validate_email settings fuel b))
    as [b'| |]; [|discriminate|congruence].
  rewrite outcome_bind in P. simpl in P.
  pose proof (process_value_ends fuel c Fc) as Pc.
  destruct (outcome (process_value validate_email settings fuel c))
    as [c'| |]; [|discriminate|congruence].
  discriminate P.
Qed.

(** X22. When group lookups hold addresses only, the command ends:
    given the iterations the three lists call for, an invocation
    returns or raises and never runs out of fuel. *)
Theorem command_ends fuel o :
  resolution_steps settings (recipient o) < fuel ->
  resolution_steps settings (given_copies (bcc o)) < fuel ->
  resolution_steps settings (given_copies (cc o)) < fuel ->
  outcome (handle validate_email settings env fuel o) <> OutOfFuel.
Proof.
  intros Ft Fb Fc.
  pose proof (prepare_ends fuel o Ft Fb Fc) as N.
  destruct (prepare validate_email settings env fuel o)
    as [ev [[rl o']|e|]] eqn:P.
  - rewrite (handle_closed_form _ _ _ _ _ _ _ _ P).
    destruct (answer_of env o') as [[answer|]|];
      [destruct (interactive o' && starts_with_n answer);
       [|destruct (transport env (request rl o')) as [[detail|]|];
         [destruct (fail_silently o')| |]]| |]; discriminate.
  - rewrite (handle_unprepared _ _ _ _ _ _ _ P). destruct e; discriminate.
  - now destruct N.
Qed.

End Termination.

(* ================================================================== *)
(** ** The further properties on concrete invocations *)

Lemma sample_lookups_plain (g : string) :
  Forall (fun r => is_group r = false) (get_addresses Sample.settings g).
Proof.
  unfold get_addresses, getattr_settings.
  destruct (String.eqb g "ADMINS"); [repeat constructor|].
  destruct (String.eqb g "MANAGERS"); repeat constructor.
Qed.

Lemma validation_fails_on_first_invalid_witness :
  handle Sample.validate_email Sample.settings (Sample.env "y") 20
         (add_arguments
            (Sample.copying "c@x.com, bad, worse"
               (Sample.command_line ["a@x.com"; "ADMINS"])))
  = ([], Raise (CommandError (invalid_address_message "bad")))
  /\ exists o',
       prepare Sample.validate_email Sample.settings (Sample.env "y") 20
               (add_arguments Sample.mixed)
       = ([], Return (["a@x.com"; "a@x.com"; "root@x.com"; "ops@x.com"], o'))
       /\ or_empty (bcc o') = []
       /\ or_empty (cc o') = ["c@x.com"; "boss@x.com"].
Proof.
  split.
  - destruct (validation_fails_on_first_invalid
                Sample.validate_email Sample.settings (Sample.env "y") 20
                (Sample.copying "c@x.com, bad, worse"
                   (Sample.command_line ["a@x.com"; "ADMINS"]))
                []
                (set_message "Hi there"
                   (add_arguments
                      (Sample.copying "c@x.com, bad, worse"
                         (Sample.command_line ["a@x.com"; "ADMINS"]))))
                ["a@x.com"; "root@x.com"; "ops@x.com"]
                eq_refl eq_refl) as [_ To].
    destruct (To ltac:(repeat constructor) [] eq_refl) as [_ Bcc].
    destruct (Bcc (Forall_nil _) ["c@x.com"; "bad"; "worse"] eq_refl)
      as [Cc _].
    apply (Cc ["c@x.com"] "bad" ["worse"] eq_refl);
      [repeat constructor | reflexivity].
  - destruct (validation_fails_on_first_invalid
                Sample.validate_email Sample.settings (Sample.env "y") 20
                Sample.mixed []
                (set_message "Hi there" (add_arguments Sample.mixed))
                ["a@x.com"; "a@x.com"; "root@x.com"; "ops@x.com"]
                eq_refl eq_refl) as [_ To].
    destruct (To ltac:(repeat constructor) [] eq_refl) as [_ Bcc].
    destruct (Bcc (Forall_nil _) ["c@x.com"; "boss@x.com"] eq_refl)
      as [_ Cc].
    apply Cc. repeat constructor.
Defined.

Lemma unreadable_message_file_witness :
  handle Sample.validate_email Sample.settings Sample.env_unreadable 20
         (add_arguments
            (Sample.saying "msg.txt" (Sample.command_line ["a@x.com"])))
  = ([EvOpenRead "msg.txt"],
     Raise (CommandError (read_error_message "msg.txt" "Permission denied"))).
Proof.
  exact (unreadable_message_file
           Sample.validate_email Sample.settings Sample.env_unreadable 20
           (add_arguments
              (Sample.saying "msg.txt" (Sample.command_line ["a@x.com"])))
           "Permission denied" eq_refl eq_refl).
Defined.

Lemma literal_message_is_the_body_witness :
  In (EvSend (Sample.request_with_body "Hi there") false)
     (trace (handle Sample.validate_email Sample.settings (Sample.env "y") 20
                    (add_arguments (Sample.command_line ["a@x.com"]))))
  /\ em_body (Sample.request_with_body "Hi there") = "Hi there".
Proof.
  assert (H : In (EvSend (Sample.request_with_body "Hi there") false)
                 (trace (handle Sample.validate_email Sample.settings
                                (Sample.env "y") 20
                                (add_arguments
                                   (Sample.command_line ["a@x.com"])))))
    by (vm_compute; auto).
  split; [exact H|].
  apply (literal_message_is_the_body
           Sample.validate_email Sample.settings (Sample.env "y") 20
           (add_arguments (Sample.command_line ["a@x.com"]))
           (Sample.request_with_body "Hi there") false eq_refl);
    [discriminate | exact H].
Defined.

Lemma file_contents_are_the_body_witness :
  In (EvSend (Sample.request_with_body "from the file") false)
     (trace (handle Sample.validate_email Sample.settings
                    (Sample.env_dash_file "y") 20
                    (add_arguments
                       (Sample.saying "-" (Sample.command_line ["a@x.com"])))))
  /\ file_read (Sample.env_dash_file "y") "-" = inl "from the file".
Proof.
  assert (H : In (EvSend (Sample.request_with_body "from the file") false)
                 (trace (handle Sample.validate_email Sample.settings
                                (Sample.env_dash_file "y") 20
                                (add_arguments
                                   (Sample.saying "-"
                                      (Sample.command_line ["a@x.com"]))))))
    by (vm_compute; auto).
  split; [exact H|].
  exact (file_contents_are_the_body
           Sample.validate_email Sample.settings (Sample.env_dash_file "y") 20
           (add_arguments
              (Sample.saying "-" (Sample.command_line ["a@x.com"])))
           (Sample.request_with_body "from the file") false eq_refl H).
Defined.

Lemma command_error_before_any_output_witness :
  outcome (handle Sample.validate_email Sample.settings (Sample.env "y") 20
                  (add_arguments (Sample.command_line ["a@x.com"; "bad"])))
  = Raise (CommandError (invalid_address_message "bad"))
  /\ trace (handle Sample.validate_email Sample.settings (Sample.env "y") 20
                   (add_arguments (Sample.command_line ["a@x.com"; "bad"])))
     = [].
Proof.
  split; [reflexivity|].
  exact (proj1 (command_error_before_any_output
                  Sample.validate_email Sample.settings (Sample.env "y") 20
                  (add_arguments (Sample.command_line ["a@x.com"; "bad"]))
                  (invalid_address_message "bad") eq_refl)).
Defined.


(** C8 as stated fails: an interrupt that arrives while the Mailer is
    at work is reported as a cancellation after the Mailer was
    invoked. *)
Lemma interrupt_during_send_comes_after_the_send :
  ~ (forall validate_email settings env fuel o,
        cancelled_waiting
          env (trace (handle validate_email settings env fuel o))
        \/ interrupted_sending
             env (trace (handle validate_email settings env fuel o)) ->
        outcome (handle validate_email settings env fuel o)
        = Raise (SystemExit 1)
        /\ (exists before,
              trace (handle validate_email settings env fuel o)
              = before ++ [EvStderr CANCELLED])
        /\ (forall m silently,
              ~ In (EvSend m silently)
                   (trace (handle validate_email settings env fuel o)))).
Proof.
  intros H.
  assert (S : In (EvSend (Sample.request_with_body "Hi there") false)
                 (trace (handle Sample.validate_email Sample.settings
                                Sample.env_interrupted_sending 20
                                (add_arguments
                                   (Sample.command_line ["a@x.com"])))))
    by (vm_compute; auto).
  destruct (H Sample.validate_email Sample.settings
              Sample.env_interrupted_sending 20
              (add_arguments (Sample.command_line ["a@x.com"])))
    as (_ & _ & N).
  - right. exists (Sample.request_with_body "Hi there"), false.
    split; [exact S | reflexivity].
  - exact (N _ _ S).
Qed.

Lemma cancellation_exits_1_witness :
  interrupted_sending
    Sample.env_interrupted_sending
    (trace (handle Sample.validate_email Sample.settings
                   Sample.env_interrupted_sending 20
                   (add_arguments (Sample.command_line ["a@x.com"]))))
  /\ cancelled_waiting
       (Sample.env "No")
       (trace (handle Sample.validate_email Sample.settings (Sample.env "No")
                      20 (add_arguments (Sample.command_line ["a@x.com"]))))
  /\ outcome (handle Sample.validate_email Sample.settings
                     Sample.env_interrupted_sending 20
                     (add_arguments (Sample.command_line ["a@x.com"])))
     = Raise (SystemExit 1)
  /\ outcome (handle Sample.validate_email Sample.settings (Sample.env "No")
                     20 (add_arguments (Sample.command_line ["a@x.com"])))
     = Raise (SystemExit 1)
  /\ ~ In (EvSend (Sample.request_with_body "Hi there") false)
          (trace (handle Sample.validate_email Sample.settings
                         (Sample.env "No") 20
                         (add_arguments (Sample.command_line ["a@x.com"])))).
Proof.
  assert (S : interrupted_sending
                Sample.env_interrupted_sending
                (trace (handle Sample.validate_email Sample.settings
                               Sample.env_interrupted_sending 20
                               (add_arguments
                                  (Sample.command_line ["a@x.com"]))))).
  { exists (Sample.request_with_body "Hi there"), false.
    split; [vm_compute; auto | reflexivity]. }
  assert (W : cancelled_waiting
                (Sample.env "No")
                (trace (handle Sample.validate_email Sample.settings
                               (Sample.env "No") 20
                               (add_arguments
                                  (Sample.command_line ["a@x.com"]))))).
  { left. split; [vm_compute; auto|].
    left. exists "No". split; reflexivity. }
  split; [exact S|]. split; [exact W|].
  destruct (cancellation_exits_1
              Sample.validate_email Sample.settings
              Sample.env_interrupted_sending 20
              (add_arguments (Sample.command_line ["a@x.com"]))
              (or_intror S)) as (O1 & _).
  destruct (cancellation_exits_1
              Sample.validate_email Sample.settings (Sample.env "No") 20
              (add_arguments (Sample.command_line ["a@x.com"]))
              (or_introl W)) as (O2 & _ & N & _).
  split; [exact O1|]. split; [exact O2|]. exact (N W _ _).
Defined.

Lemma end_of_input_at_prompt_witness :
  In (EvPrompt PROMPT)
     (trace (handle Sample.validate_email Sample.settings Sample.env_closed 20
                    (add_arguments (Sample.command_line ["a@x.com"]))))
  /\ raw_input Sample.env_closed PROMPT = Got None
  /\ outcome (handle Sample.validate_email Sample.settings Sample.env_closed
                     20 (add_arguments (Sample.command_line ["a@x.com"])))
     = Raise EOFError.
Proof.
  assert (H : In (EvPrompt PROMPT)
                 (trace (handle Sample.validate_email Sample.settings
                                Sample.env_closed 20
                                (add_arguments
                                   (Sample.command_line ["a@x.com"])))))
    by (vm_compute; auto).
  split; [exact H|]. split; [reflexivity|].
  exact (proj1 (end_of_input_at_prompt
                  Sample.validate_email Sample.settings Sample.env_closed 20
                  (add_arguments (Sample.command_line ["a@x.com"]))
                  H eq_refl)).
Defined.

Lemma noinput_never_prompts_and_sends_witness :
  interactive
    (add_arguments (Sample.unattended (Sample.command_line ["a@x.com"])))
  = false
  /\ ~ In (EvPrompt PROMPT)
          (trace (handle Sample.validate_email Sample.settings (Sample.env "y")
                         20
                         (add_arguments
                            (Sample.unattended
                               (Sample.command_line ["a@x.com"])))))
  /\ In (EvSend (Sample.request_with_body "Hi there") false)
        (trace (handle Sample.validate_email Sample.settings (Sample.env "y")
                       20
                       (add_arguments
                          (Sample.unattended
                             (Sample.command_line ["a@x.com"]))))).
Proof.
  destruct (noinput_never_prompts_and_sends
              Sample.validate_email Sample.settings (Sample.env "y") 20
              (add_arguments
                 (Sample.unattended (Sample.command_line ["a@x.com"])))
              eq_refl) as [N S].
  split; [reflexivity|]. split; [exact (N PROMPT)|].
  exact (S [] ["a@x.com"]
           (set_from_email (Some "webmaster@localhost")
              (set_subject "[Django] Hello"
                 (add_arguments
                    (Sample.unattended (Sample.command_line ["a@x.com"])))))
           eq_refl).
Defined.

Lemma interactive_send_needs_an_answer_witness :
  In (EvSend (Sample.request_with_body "Hi there") false)
     (trace (handle Sample.validate_email Sample.settings (Sample.env "y") 20
                    (add_arguments (Sample.command_line ["a@x.com"]))))
  /\ interactive (add_arguments (Sample.command_line ["a@x.com"])) = true
  /\ In (EvPrompt PROMPT)
        (trace (handle Sample.validate_email Sample.settings (Sample.env "y")
                       20 (add_arguments (Sample.command_line ["a@x.com"])))).
Proof.
  assert (H : In (EvSend (Sample.request_with_body "Hi there") false)
                 (trace (handle Sample.validate_email Sample.settings
                                (Sample.env "y") 20
                                (add_arguments
                                   (Sample.command_line ["a@x.com"])))))
    by (vm_compute; auto).
  split; [exact H|]. split; [reflexivity|].
  apply (interactive_send_needs_an_answer
           Sample.validate_email Sample.settings (Sample.env "y") 20
           (add_arguments (Sample.command_line ["a@x.com"]))
           (Sample.request_with_body "Hi there") false H eq_refl).
  vm_compute. intuition discriminate.
Defined.

Lemma quiet_without_verbosity_witness :
  (verbosity_of
     (add_arguments (Sample.unattended (Sample.command_line ["a@x.com"])))
   <= 1)%Z
  /\ ~ In (EvStdout SENT)
          (trace (handle Sample.validate_email Sample.settings (Sample.env "y")
                         20
                         (add_arguments
                            (Sample.unattended
                               (Sample.command_line ["a@x.com"]))))).
Proof.
  assert (V : (verbosity_of
                 (add_arguments
                    (Sample.unattended (Sample.command_line ["a@x.com"])))
               <= 1)%Z) by (vm_compute; discriminate).
  split; [exact V|].
  exact (quiet_without_verbosity
           Sample.validate_email Sample.settings (Sample.env "y") 20
           (add_arguments
              (Sample.unattended (Sample.command_line ["a@x.com"])))
           SENT V eq_refl).
Defined.

Lemma delivery_failure_raises_unless_silent_witness :
  In (EvSend (Sample.request_with_body "Hi there") false)
     (trace (handle Sample.validate_email Sample.settings
                    (Sample.env_failing "y") 20
                    (add_arguments (Sample.command_line ["a@x.com"]))))
  /\ outcome (handle Sample.validate_email Sample.settings
                     (Sample.env_failing "y") 20
                     (add_arguments (Sample.command_line ["a@x.com"])))
     = Raise (MailError "Connection refused").
Proof.
  assert (H : In (EvSend (Sample.request_with_body "Hi there") false)
                 (trace (handle Sample.validate_email Sample.settings
                                (Sample.env_failing "y") 20
                                (add_arguments
                                   (Sample.command_line ["a@x.com"])))))
    by (vm_compute; auto).
  split; [exact H|].
  exact (proj1 (delivery_failure_raises_unless_silent
                  Sample.validate_email Sample.settings
                  (Sample.env_failing "y") 20
                  (add_arguments (Sample.command_line ["a@x.com"]))
                  (Sample.request_with_body "Hi there") false
                  "Connection refused" H eq_refl)).
Defined.

Lemma preview_shows_the_sent_request_witness :
  In (EvSend Sample.mixed_request false)
     (trace (handle Sample.validate_email Sample.settings (Sample.env "y") 20
                    (add_arguments Sample.mixed)))
  /\ In (EvStdout
           (Py.nl ++ spec_preview "[Django] Hello" "webmaster@localhost"
                                  ["a@x.com"; "a@x.com"; "root@x.com";
                                   "ops@x.com"]
                                  ["c@x.com"; "boss@x.com"] "Hi there"))
        (trace (handle Sample.validate_email Sample.settings (Sample.env "y")
                       20 (add_arguments Sample.mixed)))
  /\ (Py.nl ++ spec_preview "[Django] Hello" "webmaster@localhost"
                            ["a@x.com"; "a@x.com"; "root@x.com"; "ops@x.com"]
                            ["c@x.com"; "boss@x.com"] "Hi there")%string
     = (Py.nl ++ spec_preview (em_subject Sample.mixed_request)
                              (str (em_from_email Sample.mixed_request))
                              (em_to Sample.mixed_request)
                              (or_empty (em_cc Sample.mixed_request))
                              (em_body Sample.mixed_request))%string.
Proof.
  assert (H : In (EvSend Sample.mixed_request false)
                 (trace (handle Sample.validate_email Sample.settings
                                (Sample.env "y") 20
                                (add_arguments Sample.mixed))))
    by (vm_compute; auto).
  assert (T : In (EvStdout
                    (Py.nl ++ spec_preview "[Django] Hello"
                                "webmaster@localhost"
                                ["a@x.com"; "a@x.com"; "root@x.com";
                                 "ops@x.com"]
                                ["c@x.com"; "boss@x.com"] "Hi there"))
                 (trace (handle Sample.validate_email Sample.settings
                                (Sample.env "y") 20
                                (add_arguments Sample.mixed))))
    by (vm_compute; auto).
  split; [exact H|]. split; [exact T|].
  apply (preview_shows_the_sent_request
           Sample.validate_email Sample.settings (Sample.env "y") 20
           (add_arguments Sample.mixed) _ Sample.mixed_request false T);
    [|exact H].
  intros E. vm_compute in E. discriminate E.
Defined.

Lemma no_group_name_is_sent_witness :
  Sample.validate_email "ADMINS" = false
  /\ Sample.validate_email "MANAGERS" = false
  /\ In (EvSend Sample.mixed_request false)
        (trace (handle Sample.validate_email Sample.settings (Sample.env "y")
                       20 (add_arguments Sample.mixed)))
  /\ exists extra,
       ["a@x.com"; "a@x.com"; "root@x.com"; "ops@x.com"]
       = ["a@x.com"; "a@x.com"] ++ extra.
Proof.
  assert (H : In (EvSend Sample.mixed_request false)
                 (trace (handle Sample.validate_email Sample.settings
                                (Sample.env "y") 20
                                (add_arguments Sample.mixed))))
    by (vm_compute; auto).
  do 2 (split; [reflexivity|]). split; [exact H|].
  exact (proj1 (no_group_name_is_sent
                  Sample.validate_email Sample.settings (Sample.env "y") 20
                  (add_arguments Sample.mixed) Sample.mixed_request false
                  eq_refl eq_refl H)).
Defined.

Lemma list_without_group_names_is_unchanged_witness :
  resolve_groups Sample.settings 3 0 ["a@x.com"; "b@x.com"]
  = ([], Return ["a@x.com"; "b@x.com"]).
Proof.
  apply (list_without_group_names_is_unchanged
           Sample.settings 3 ["a@x.com"; "b@x.com"]).
  - repeat constructor.
  - simpl. lia.
Defined.

Lemma groups_apart_resolve_fully_witness :
  groups_apart ["a@x.com"; "ADMINS"; "b@x.com"; "MANAGERS"] = true
  /\ resolve_groups Sample.settings 20 0
       ["a@x.com"; "ADMINS"; "b@x.com"; "MANAGERS"]
     = ([], Return ["a@x.com"; "b@x.com"; "root@x.com"; "ops@x.com";
                    "boss@x.com"]).
Proof.
  split; [reflexivity|].
  apply (groups_apart_resolve_fully
           Sample.settings 20 ["a@x.com"; "ADMINS"; "b@x.com"; "MANAGERS"]
           sample_lookups_plain eq_refl).
  unfold resolution_steps, lookup_bound. simpl. lia.
Defined.

Lemma resolution_ends_with_one_result_witness :
  exists lst',
    (forall fuel,
        resolution_steps Sample.settings ["ADMINS"; "MANAGERS"] < fuel ->
        resolve_groups Sample.settings fuel 0 ["ADMINS"; "MANAGERS"]
        = ([], Return lst'))
    /\ exists extra,
         filter is_address lst'
         = filter is_address ["ADMINS"; "MANAGERS"] ++ extra.
Proof.
  exact (resolution_ends_with_one_result
           Sample.settings ["ADMINS"; "MANAGERS"] sample_lookups_plain).
Defined.

Lemma self_naming_group_never_ends_witness :
  is_group "ADMINS" = true
  /\ get_addresses Sample.looping_settings "ADMINS" = repeat "ADMINS" 2
  /\ outcome (resolve_groups Sample.looping_settings 50 0 ["ADMINS"])
     = OutOfFuel.
Proof.
  do 2 (split; [reflexivity|]).
  exact (self_naming_group_never_ends
           Sample.looping_settings "ADMINS" 0 50 [] 0 eq_refl eq_refl).
Defined.

Lemma copies_are_stripped_pieces_witness :
  exists pieces,
    Py.join "," pieces = "c@x.com, MANAGERS,"
    /\ Forall (fun a => has_comma a = false) pieces
    /\ List.length pieces = 3
    /\ split_copy (CStr "c@x.com, MANAGERS,")
       = ret (CList (map Py.strip pieces))
    /\ map Py.strip pieces = ["c@x.com"; "MANAGERS"; ""].
Proof.
  destruct (copies_are_stripped_pieces "c@x.com, MANAGERS,")
    as (pieces & J & C & L & S & _ & _); [discriminate|].
  exists pieces. do 4 (split; [assumption|]).
  assert (E : ret (CList (map Py.strip pieces))
              = ret (CList ["c@x.com"; "MANAGERS"; ""]))
    by (rewrite <- S; reflexivity).
  now inversion E.
Defined.

Lemma command_ends_witness :
  outcome (handle Sample.validate_email Sample.settings (Sample.env "y") 20
                  (add_arguments Sample.mixed))
  <> OutOfFuel.
Proof.
  apply (command_ends Sample.validate_email Sample.settings (Sample.env "y")
                      sample_lookups_plain 20 (add_arguments Sample.mixed));
    unfold resolution_steps, lookup_bound; simpl; lia.
Defined.
